(** * Monitoring dashboard: derived metrics, bounded histories, layout and
      traffic-event scheduling

    A shallow embedding of the client-side logic of the dashboard
    (App.jsx, ServerMetrics.jsx, LoadBalancerStats.jsx, TrafficFlow.jsx,
    NetworkTopology.jsx, utils/api.js).

    Conventions of the embedding.
    - The numbers of [calculateAlgorithmPerformance] and of the algorithm
      history are binary64 floating-point numbers ([float]), with the
      operations of IEEE 754 as the language has them; [Math.round] is
      computed exactly on them (module [F64]).
    - Elsewhere a JavaScript number that arrives over JSON is a finite
      number modelled by an exact rational ([Q]), with exact arithmetic.
      [NaN], which the code can produce by subtracting [undefined], is a
      separate constructor of [jsnum].
    - An optional property of a JSON object is an [option]; [None] is
      [undefined].
    - A plain object used as a map is a finite map of its own properties;
      where the code reads a property that may be inherited from
      [Object.prototype], the inherited members are those of
      [Js.inherited].
    - [Date.now()] and [Math.random()] are inputs of the functions that call
      them; [Math.random()] is in the interval from 0 (included) to 1
      (excluded).
    - React state is an explicit record or map that the updater functions
      transform.
    - Coordinates of the topology layout are real numbers, [Math.cos] and
      [Math.sin] are the real cosine and sine.
    - Timers run on a discrete clock of milliseconds (see the traffic
      animation effect). *)

From Stdlib Require Import PrimFloat.
From Stdlib Require Floats Uint63.
From Stdlib Require Import ZArith QArith Qround Qminmax Lia List Sorted.
From Stdlib Require Import Reals Lra.
From Stdlib Require Lqa.
From stdpp Require Import base option list strings gmap pretty.

#[local] Open Scope Z_scope.

(** ** JavaScript helpers *)

Module Js.

(** A number as an arithmetic operator returns it. *)
Inductive jsnum : Type :=
| NaN
| Num (q : Q).

(** [ToNumber] of a property read: [undefined] converts to [NaN]. *)
Definition to_number (v : option Q) : jsnum :=
  match v with
  | Some q => Num q
  | None => NaN
  end.

(** [a - b] *)
Definition minus (a b : jsnum) : jsnum :=
  match a, b with
  | Num x, Num y => Num (x - y)
  | _, _ => NaN
  end.

(** [v || 0] for an optional numeric property: [undefined] and [0] are
    falsy, so the result is the number itself or [0]. *)
Definition or_zero (v : option Q) : Q :=
  match v with
  | Some q => q
  | None => 0%Q
  end.

(** [a > b] where [a] is an optional numeric property: with [undefined]
    the comparison is against [NaN] and is [false]. *)
Definition gt (a : option Q) (b : Q) : bool :=
  match a with
  | Some q => negb (Qle_bool q b)
  | None => false
  end.

(** The proposition that [a > b] holds. *)
Definition exceeds (v : option Q) (limit : Q) : Prop :=
  exists q, v = Some q /\ (limit < q)%Q.

(** [xs.slice(-n)] for [n > 0]: the last [n] elements of [xs], all of
    them when [xs] is shorter. *)
Definition slice_last {A : Type} (n : nat) (xs : list A) : list A :=
  skipn (length xs - n) xs.

(** The property key under which [obj[name]] is stored when [name] may be
    [undefined]. *)
Definition prop_key (name : option string) : string :=
  default "undefined"%string name.

(** Truthiness of an optional string: [undefined] and the empty string
    are falsy. *)
Definition truthy_str (name : option string) : bool :=
  match name with
  | Some s => negb (String.eqb s "")
  | None => false
  end.

(** Rounding towards zero, as the remainder operator does it. *)
Definition trunc (q : Q) : Z :=
  if Qle_bool 0 q then Qfloor q else Qceiling q.

(** [a % b]: the remainder has the sign of the dividend. *)
Definition rem (a b : Q) : Q := a - b * inject_Z (trunc (a / b)).

(** [a + b] on numbers. *)
Definition plus (a b : jsnum) : jsnum :=
  match a, b with
  | Num x, Num y => Num (x + y)
  | _, _ => NaN
  end.

(** [Math.max(...xs)]: the largest of the arguments; with no argument it
    is minus infinity, which is [None] here. *)
Definition max_list (xs : list Q) : option Q :=
  match xs with
  | [] => None
  | x :: rest => Some (fold_left Qmax rest x)
  end.

(** [v || d] for an optional numeric property and a non-zero default:
    [undefined] and [0] are falsy. *)
Definition or_else (v : option Q) (d : Q) : Q :=
  match v with
  | Some q => if Qeq_bool q 0 then d else q
  | None => d
  end.

(** [xs.reduce((a, b) => a + b, 0)] *)
Definition sum (xs : list Q) : Q := fold_left Qplus xs 0%Q.

(** What a plain object inherits from [Object.prototype]: methods, each
    with the [length] of the function, and the accessor [__proto__], which
    reads as [Object.prototype] itself, an object without a [length]. *)
Inductive Member : Type :=
| Method (arity : nat)
| Prototype.

(** The member [obj[name]] reads from [Object.prototype] when [obj] has no
    own property [name]; [None] when there is none and the read yields
    [undefined]. *)
Definition inherited (name : string) : option Member :=
  if String.eqb name "__proto__" then Some Prototype
  else if String.eqb name "constructor" then Some (Method 1)
  else if String.eqb name "hasOwnProperty" then Some (Method 1)
  else if String.eqb name "isPrototypeOf" then Some (Method 1)
  else if String.eqb name "propertyIsEnumerable" then Some (Method 1)
  else if String.eqb name "toLocaleString" then Some (Method 0)
  else if String.eqb name "toString" then Some (Method 0)
  else if String.eqb name "valueOf" then Some (Method 0)
  else if String.eqb name "__defineGetter__" then Some (Method 2)
  else if String.eqb name "__defineSetter__" then Some (Method 2)
  else if String.eqb name "__lookupGetter__" then Some (Method 1)
  else if String.eqb name "__lookupSetter__" then Some (Method 1)
  else None.

End Js.

(** ** Binary64 numbers *)

Module F64.

(** The number with the magnitude of the integer [z] and the given sign;
    with [z = 0] it is the zero of that sign. *)
Definition of_Z (negative : bool) (z : Z) : float :=
  let magnitude := of_uint63 (Uint63.of_Z (Z.abs z)) in
  if negative then opp magnitude else magnitude.

(** [Math.round]: [NaN], the infinities and the integers are returned as
    they are; any other number [x] becomes the integer [floor (x + 1/2)],
    computed without rounding error, which is the zero with the sign of [x]
    when [x] is between -0.5 and 0.5.  A number whose exponent is not
    negative is an integer. *)
Definition round (x : float) : float :=
  match FloatOps.Prim2SF x with
  | SpecFloat.S754_finite negative m e =>
      if 0 <=? e then x
      else
        let denominator := 2 ^ (- e) in
        let numerator := if negative then Z.neg m else Z.pos m in
        of_Z negative ((2 * numerator + denominator) / (2 * denominator))
  | _ => x
  end.

(** Truthiness of a number: [0], [-0] and [NaN] are falsy. *)
Definition falsy (x : float) : bool := PrimFloat.eqb x 0 || is_nan x.

(** [v || 0] for an optional numeric property. *)
Definition or_zero (v : option float) : float :=
  match v with
  | Some x => if falsy x then 0%float else x
  | None => 0%float
  end.

(** The sign of a number is not plus: the number is negative, a zero or
    [NaN]. *)
Definition not_positive (f : SpecFloat.spec_float) : bool :=
  match f with
  | SpecFloat.S754_zero _ => true
  | SpecFloat.S754_nan => true
  | SpecFloat.S754_infinity negative => negative
  | SpecFloat.S754_finite negative _ _ => negative
  end.

(** The sign of a number is not minus: the number is positive, a zero or
    [NaN]. *)
Definition not_negative (f : SpecFloat.spec_float) : bool :=
  match f with
  | SpecFloat.S754_zero _ => true
  | SpecFloat.S754_nan => true
  | SpecFloat.S754_infinity negative => negb negative
  | SpecFloat.S754_finite negative _ _ => negb negative
  end.

(** The number is below zero. *)
Definition below_zero (f : SpecFloat.spec_float) : bool :=
  match f with
  | SpecFloat.S754_infinity s => s
  | SpecFloat.S754_finite s _ _ => s
  | _ => false
  end.

(** The number is above zero. *)
Definition above_zero (f : SpecFloat.spec_float) : bool :=
  match f with
  | SpecFloat.S754_infinity s => negb s
  | SpecFloat.S754_finite s _ _ => negb s
  | _ => false
  end.

End F64.

(** ** Entity snapshots (the wire shape of a server) *)

Module Entity.

Record Server : Type := mkServer {
  name : option string;
  cpu_usage : option Q;
  memory_usage : option Q;
  connections : option Q;
  uptime : option Q;
  avg_response_time : option Q;
  total_requests : option Q;
  healthy : option bool;
  hostname : option string;
  last_check : option Z;
  weight : option Q;
}.

End Entity.

(** ** ServerMetrics.jsx *)

Module ServerMetrics.

(** One entry of a server's metrics history. *)
Record Sample : Type := mkSample {
  timestamp : Z;
  cpu : Q;
  memory : Q;
  connections : Q;
}.

(** [entry[metric]]: the own properties of an entry are the four fields
    above; any other own-property read is [undefined].  (The members an
    entry inherits from [Object.prototype] are functions or objects, whose
    numeric conversion is [NaN] just as that of [undefined].) *)
Definition get (metric : string) (entry : Sample) : option Q :=
  if String.eqb metric "timestamp" then Some (inject_Z (timestamp entry))
  else if String.eqb metric "cpu" then Some (cpu entry)
  else if String.eqb metric "memory" then Some (memory entry)
  else if String.eqb metric "connections" then Some (connections entry)
  else None.

(** The updater passed to [setMetricsHistory] for one server; [now] is
    the value [Date.now()] returns when the updater runs. *)
Definition newEntry (now : Z) (server : Entity.Server) : Sample :=
  {| timestamp := now;
     cpu := Js.or_zero (Entity.cpu_usage server);
     memory := Js.or_zero (Entity.memory_usage server);
     connections := Js.or_zero (Entity.connections server) |}.

(** The updater, for a server whose name the state object has as an own
    property or does not have at all.  (For a name that is only inherited,
    [Js.inherited], the value read is not an array and [slice] throws.) *)
Definition appendSample (now : Z) (server : Entity.Server)
    (prev : gmap string (list Sample)) : gmap string (list Sample) :=
  let key := Js.prop_key (Entity.name server) in
  let history := default [] (prev !! key) in
  let updatedHistory := Js.slice_last 19 history ++ [newEntry now server] in
  <[ key := updatedHistory ]> prev.

(** The body of [servers.forEach] in the history effect. *)
Definition recordServer (entry : Entity.Server * Z)
    (prev : gmap string (list Sample)) : gmap string (list Sample) :=
  let (server, now) := entry in
  if Js.truthy_str (Entity.name server) then appendSample now server prev
  else prev.

(** One run of the history effect over [servers], each paired with the
    clock reading of its updater. *)
Definition updateMetricsHistory (servers : list (Entity.Server * Z))
    (prev : gmap string (list Sample)) : gmap string (list Sample) :=
  fold_left (fun acc entry => recordServer entry acc) servers prev.

(** Any number of runs of the effect, from the initial state [{}]. *)
Definition historyAfter (runs : list (list (Entity.Server * Z)))
    : gmap string (list Sample) :=
  fold_left (fun acc servers => updateMetricsHistory servers acc) runs ∅.

(** Every buffer of a history map holds at most 20 samples. *)
Definition bounded (m : gmap string (list Sample)) : Prop :=
  forall key history, m !! key = Some history -> (length history <= 20)%nat.

Inductive Status : Type := Healthy | Warning | Unhealthy.

(** [getServerStatus] *)
Definition getServerStatus (server : Entity.Server) : Status :=
  if bool_decide (Entity.healthy server = Some false) then Unhealthy
  else if Js.gt (Entity.cpu_usage server) 80
          || Js.gt (Entity.memory_usage server) 85
       then Warning
       else Healthy.

(** How a call of [calculateTrend] ends: with a number, or with the
    [TypeError] of calling [slice] on a value that has no such method. *)
Inductive Trend : Type :=
| Returns (value : Js.jsnum)
| Throws.

Coercion Returns : Js.jsnum >-> Trend.

(** [calculateTrend].  [metricsHistory] holds the own properties of the
    state object; a name without an own property is looked up in
    [Object.prototype].  An inherited method is truthy and has a [length]:
    with a [length] below 2 the function returns 0, otherwise [slice] is
    called on the method and throws.  The prototype object has no [length],
    [undefined < 2] is false, and [slice] throws as well. *)
Definition calculateTrend (metricsHistory : gmap string (list Sample))
    (serverName metric : string) : Trend :=
  match metricsHistory !! serverName with
  | Some history =>
      if (length history <? 2)%nat then Returns (Js.Num 0)
      else
        match Js.slice_last 2 history with
        | [recent0; recent1] =>
            Returns (Js.minus (Js.to_number (get metric recent1))
                              (Js.to_number (get metric recent0)))
        | _ => Returns Js.NaN (* not reached: two entries are left *)
        end
  | None =>
      match Js.inherited serverName with
      | None => Returns (Js.Num 0)
      | Some (Js.Method arity) =>
          if (arity <? 2)%nat then Returns (Js.Num 0) else Throws
      | Some Js.Prototype => Throws
      end
  end.

(** The samples one run of the history effect records under [key]: those
    of the servers with a truthy name whose key it is, in list order. *)
Definition samplesFor (key : string) (servers : list (Entity.Server * Z))
    : list Sample :=
  map (fun entry => newEntry (snd entry) (fst entry))
    (List.filter
       (fun entry =>
          Js.truthy_str (Entity.name (fst entry))
          && String.eqb (Js.prop_key (Entity.name (fst entry))) key)
       servers).

(** [getStatusColor] *)
Definition getStatusColor (status : string) : string :=
  if String.eqb status "healthy" then "#4ade80"
  else if String.eqb status "warning" then "#fbbf24"
  else if String.eqb status "unhealthy" then "#f87171"
  else "#9ca3af".

(** The string a status is in the code. *)
Definition statusName (status : Status) : string :=
  match status with
  | Healthy => "healthy"
  | Warning => "warning"
  | Unhealthy => "unhealthy"
  end.

(** [formatUptime], with exact quotients and remainders; the numbers in
    the template strings are integers and print in decimal.  For whole
    seconds below [2^53] the binary64 results of the code are these: the
    remainders are exact, and a quotient that is not an integer is further
    from the next integer than its rounding error. *)
Definition formatUptime (seconds : option Q) : string :=
  match seconds with
  | None => "N/A"
  | Some s =>
      if Qeq_bool s 0 then "N/A"
      else
        let days := Qfloor (s / 86400) in
        let hours := Qfloor (Js.rem s 86400 / 3600) in
        let minutes := Qfloor (Js.rem s 3600 / 60) in
        if 0 <? days then pretty days +:+ "d " +:+ pretty hours +:+ "h"
        else if 0 <? hours
             then pretty hours +:+ "h " +:+ pretty minutes +:+ "m"
             else pretty minutes +:+ "m"
  end.

(** The colour of the CPU bar of a server card:
    [getStatusColor((server.cpu_usage || 0) > 80 ? 'warning' : 'healthy')]. *)
Definition cpuBarColor (server : Entity.Server) : string :=
  getStatusColor
    (if Js.gt (Some (Js.or_zero (Entity.cpu_usage server))) 80
     then "warning" else "healthy").

(** The colour of the memory bar, with the threshold 85. *)
Definition memoryBarColor (server : Entity.Server) : string :=
  getStatusColor
    (if Js.gt (Some (Js.or_zero (Entity.memory_usage server))) 85
     then "warning" else "healthy").

(** The width of a bar in percent: [Math.min(value || 0, 100)]. *)
Definition barWidth (value : option Q) : Q := Qmin (Js.or_zero value) 100.

(** A mark of the CPU history chart: [height] and [left] in percent. *)
Record Mark : Type := mkMark {
  mark_height : Q;
  mark_left : Q;
}.

(** The callback of [metricsHistory[name].map] in the CPU history chart:
    [None] is the [null] it returns when there is no previous entry. *)
Definition cpuChart (history : list Sample) : list (option Mark) :=
  imap
    (fun index entry =>
       let prevEntry :=
         match index with
         | O => None                      (* [arr[-1]] *)
         | S before => history !! before
         end in
       match prevEntry with
       | None => None
       | Some _ =>
           Some {| mark_height := Qmin (cpu entry) 100;
                   mark_left :=
                     inject_Z (Z.of_nat index)
                     / inject_Z (Z.of_nat (length history) - 1) * 100 |}
       end)
    history.

End ServerMetrics.

(** ** LoadBalancerStats.jsx *)

Module LoadBalancerStats.

Record AlgorithmEntry : Type := mkEntry {
  algorithm : string;
  timestamp : float;
  healthyServers : float;
  totalRequests : float;
}.

Record Performance : Type := mkPerformance {
  requestRate : float;
  avgResponseTime : float;
  errorRate : float;
  efficiency : float;
}.

(** The updater of the algorithm-history effect, run when [stats.algorithm]
    is set; [now] is what [Date.now()] returns. *)
Definition recordAlgorithm (now : float) (algo : string)
    (healthy_servers total_requests : option float)
    (prev : list AlgorithmEntry) : list AlgorithmEntry :=
  let newEntry := {|
    algorithm := algo;
    timestamp := now;
    healthyServers := F64.or_zero healthy_servers;
    totalRequests := F64.or_zero total_requests;
  |} in
  Js.slice_last 9 prev ++ [newEntry].

(** [calculateAlgorithmPerformance]; [r1], [r2], [r3] are the three
    [Math.random()] draws of the mocked fields. *)
Definition calculateAlgorithmPerformance (r1 r2 r3 : float)
    (algorithmHistory : list AlgorithmEntry) : Performance :=
  let zero := {| requestRate := 0; avgResponseTime := 0;
                 errorRate := 0; efficiency := 0 |} in
  if (length algorithmHistory <? 2)%nat then zero
  else
    match algorithmHistory !! (length algorithmHistory - 1)%nat,
          algorithmHistory !! (length algorithmHistory - 2)%nat with
    | Some current, Some previous =>
        let requestChange :=
          (totalRequests current - totalRequests previous)%float in
        let timeDiff :=
          ((timestamp current - timestamp previous) / 1000)%float in
        let requestRate :=
          if (0 <? timeDiff)%float then (requestChange / timeDiff)%float
          else 0%float in
        {| requestRate := F64.round requestRate;
           avgResponseTime := (50 + r1 * 50)%float;
           errorRate := (0.5 + r2 * 1.5)%float;
           efficiency := (85 + r3 * 15)%float |}
    | _, _ => zero (* not reached: both indices are in range *)
    end.

(** The three series of the performance charts. *)
Record PerformanceMetrics : Type := mkMetrics {
  requestsPerSecond : list Q;
  responseTimes : list Q;
  errorRates : list Q;
}.

(** The initial value of the [performanceMetrics] state. *)
Definition initialMetrics : PerformanceMetrics :=
  {| requestsPerSecond := []; responseTimes := []; errorRates := [] |}.

(** The values the interval callback draws: [draws] are its three
    [Math.random()] results. *)
Definition rpsOf (draws : Q * Q * Q) : Q :=
  inject_Z (Qfloor (fst (fst draws) * 50) + 20).

Definition responseTimeOf (draws : Q * Q * Q) : Q :=
  snd (fst draws) * 50 + 50.

Definition errorRateOf (draws : Q * Q * Q) : Q :=
  snd draws * 2.

(** The callback of the 1000 ms interval of the performance effect. *)
Definition onMetricsTick (draws : Q * Q * Q) (prev : PerformanceMetrics)
    : PerformanceMetrics :=
  let rps := rpsOf draws in
  let responseTime := responseTimeOf draws in
  let errorRate := errorRateOf draws in
  {| requestsPerSecond := Js.slice_last 29 (requestsPerSecond prev) ++ [rps];
     responseTimes := Js.slice_last 29 (responseTimes prev) ++ [responseTime];
     errorRates := Js.slice_last 29 (errorRates prev) ++ [errorRate] |}.

(** The state after the ticks of the interval, in order. *)
Definition metricsAfter (ticks : list (Q * Q * Q)) : PerformanceMetrics :=
  fold_left (fun acc draws => onMetricsTick draws acc) ticks initialMetrics.

(** The three draws are [Math.random()] results. *)
Definition unitDraws (draws : Q * Q * Q) : Prop :=
  (0 <= fst (fst draws) < 1 /\ 0 <= snd (fst draws) < 1
   /\ 0 <= snd draws < 1)%Q.

(** The style of one bar of a performance chart: [width] in percent,
    [height] in pixels. *)
Record Bar : Type := mkBar {
  bar_width : Q;
  bar_height : Q;
  bar_opacity : Q;
}.

(** [renderPerformanceChart]: the bars, or [None] for the [null] it
    returns on empty data. *)
Definition renderPerformanceChart (data : list Q) : option (list Bar) :=
  if (length data =? 0)%nat then None
  else
    match Js.max_list data with
    | Some maxValue =>
        let chartHeight := 60%Q in
        Some (imap
                (fun index value =>
                   let height :=
                     if negb (Qle_bool maxValue 0)
                     then (value / maxValue * chartHeight)%Q
                     else 0%Q in
                   let width := (100 / inject_Z (Z.of_nat (length data)))%Q in
                   {| bar_width := width;
                      bar_height := height;
                      bar_opacity :=
                        (7 # 10)
                        + inject_Z (Z.of_nat index)
                          / inject_Z (Z.of_nat (length data)) * (3 # 10) |})
                data)
    | None => None (* not reached: the data is not empty *)
    end.

(** The label under the average response time:
    [perf.avgResponseTime < 100 ? 'Good' : 'Slow']. *)
Definition responseLabel (perf : Performance) : string :=
  if (avgResponseTime perf <? 100)%float then "Good" else "Slow".

End LoadBalancerStats.

(** ** App.jsx *)

Module App.

(** The body of a [/stats] response and of a [stats_update] push. *)
Record Stats : Type := mkStats {
  total_requests : option Q;
  healthy_servers : option Q;
  total_servers : option Q;
  stats_algorithm : option string;
  server_stats : option (list Entity.Server);
}.

(** The payload of a [traffic_update] push. *)
Record Traffic : Type := mkTraffic {
  requests : option Q;
  bytes : option Q;
  responseTime : option Q;
  successRate : option Q;
}.

(** A parsed push message [{type, payload}]. *)
Inductive Message : Type :=
| stats_update (payload : Stats)
| traffic_update (payload : Traffic)
| other_type (type : string).

(** The state hooks of [App]. *)
Record State : Type := mkState {
  stats : option Stats;
  servers : list Entity.Server;
  algorithm : string;
  trafficData : list Traffic;
  isSimulating : bool;
}.

(** The state of a freshly mounted [App]. *)
Definition initial : State :=
  {| stats := None; servers := []; algorithm := "round_robin";
     trafficData := []; isSimulating := false |}.

Definition setStats (v : option Stats) (st : State) : State :=
  {| stats := v; servers := servers st; algorithm := algorithm st;
     trafficData := trafficData st; isSimulating := isSimulating st |}.

Definition setServers (v : list Entity.Server) (st : State) : State :=
  {| stats := stats st; servers := v; algorithm := algorithm st;
     trafficData := trafficData st; isSimulating := isSimulating st |}.

Definition setAlgorithm (v : string) (st : State) : State :=
  {| stats := stats st; servers := servers st; algorithm := v;
     trafficData := trafficData st; isSimulating := isSimulating st |}.

Definition setTrafficData (f : list Traffic -> list Traffic) (st : State)
    : State :=
  {| stats := stats st; servers := servers st; algorithm := algorithm st;
     trafficData := f (trafficData st); isSimulating := isSimulating st |}.

(** [ws.onmessage], after [JSON.parse]. *)
Definition onmessage (data : Message) (st : State) : State :=
  match data with
  | stats_update payload => setStats (Some payload) st
  | traffic_update payload =>
      setTrafficData (fun prev => Js.slice_last 50 prev ++ [payload]) st
  | other_type _ => st
  end.

(** The state after a sequence of push messages, in arrival order. *)
Definition receive (messages : list Message) (st : State) : State :=
  fold_left (fun acc data => onmessage data acc) messages st.

(** [fetchStats], given what the request produced: [None] when [fetch]
    or [response.json()] throws (the [catch] only logs). *)
Definition fetchStats (response : option Stats) (st : State) : State :=
  match response with
  | Some data =>
      setServers (default [] (server_stats data)) (setStats (Some data) st)
  | None => st
  end.

(** The body of an [/algorithm/{name}] response. *)
Record CommandResult : Type := mkResult {
  success : option bool;
}.

(** [changeAlgorithm newAlgo], given what its own request produced and
    what the [fetchStats()] it starts on success produced. *)
Definition changeAlgorithm (newAlgo : string)
    (response : option CommandResult) (refresh : option Stats)
    (st : State) : State :=
  match response with
  | Some data =>
      if bool_decide (success data = Some true)
      then fetchStats refresh (setAlgorithm newAlgo st)
      else st
  | None => st
  end.

(** The body of a [/servers] response. *)
Record ServerList : Type := mkServerList {
  listed : option (list Entity.Server);   (* the property [servers] *)
}.

(** [fetchServers], given what the request produced. *)
Definition fetchServers (response : option ServerList) (st : State) : State :=
  match response with
  | Some data => setServers (default [] (listed data)) st
  | None => st
  end.

Definition setIsSimulating (v : bool) (st : State) : State :=
  {| stats := stats st; servers := servers st; algorithm := algorithm st;
     trafficData := trafficData st; isSimulating := v |}.

(** [sendTestRequest]: [ok] tells whether the [/request] call produced a
    JSON body (otherwise it throws and the [catch] only logs); [refresh] is
    what the [fetchStats()] it then starts produced. *)
Definition sendTestRequest (ok : bool) (refresh : option Stats) (st : State)
    : State :=
  if ok then fetchStats refresh st else st.

(** The [for] loop of [startTrafficSimulation], [n] rounds from round [i];
    [outcome i] is what round [i] produced.  Each refresh is taken to
    complete within the pause that follows its request. *)
Fixpoint simulationRounds (outcome : nat -> bool * option Stats) (n i : nat)
    (st : State) : State :=
  match n with
  | O => st
  | S n' =>
      simulationRounds outcome n' (S i)
        (sendTestRequest (fst (outcome i)) (snd (outcome i)) st)
  end.

(** A round of the simulation refreshes nothing when its request or its
    refresh fails. *)
Definition roundFails (outcome : nat -> bool * option Stats) (i : nat)
    : Prop :=
  fst (outcome i) = false \/ snd (outcome i) = None.

(** [startTrafficSimulation] *)
Definition startTrafficSimulation (outcome : nat -> bool * option Stats)
    (st : State) : State :=
  setIsSimulating false
    (simulationRounds outcome 10 0 (setIsSimulating true st)).

(** The "Active Connections" metric:
    [servers.reduce((sum, s) => sum + s.connections, 0)]. *)
Definition activeConnections (ss : list Entity.Server) : Js.jsnum :=
  fold_left
    (fun sum s => Js.plus sum (Js.to_number (Entity.connections s)))
    ss (Js.Num 0).

(** The payloads of the [traffic_update] messages of a sequence, in order. *)
Definition trafficPayloads (messages : list Message) : list Traffic :=
  omap (fun data =>
          match data with
          | traffic_update payload => Some payload
          | _ => None
          end) messages.

(** The payload of the last [stats_update] message of a sequence, if any. *)
Definition lastStatsUpdate (messages : list Message) : option Stats :=
  last (omap (fun data =>
                match data with
                | stats_update payload => Some payload
                | _ => None
                end) messages).

End App.

(** ** The overview cards of LoadBalancerStats.jsx *)

Module Overview.

(** [a === b] on two optional numeric properties. *)
Definition strictEq (a b : option Q) : bool :=
  match a, b with
  | None, None => true
  | Some x, Some y => Qeq_bool x y
  | _, _ => false
  end.

(** The line under the healthy-server count. *)
Inductive ServerTrend : Type :=
| AllHealthy                  (* "All servers healthy" *)
| Down (count : Js.jsnum).    (* "{count} server(s) down" *)

Definition serverTrend (stats : App.Stats) : ServerTrend :=
  if strictEq (App.healthy_servers stats) (App.total_servers stats)
  then AllHealthy
  else Down (Js.minus (Js.to_number (App.total_servers stats))
                      (Js.to_number (App.healthy_servers stats))).

End Overview.

(** ** TrafficFlow.jsx *)

Module TrafficFlow.

(** An entry of the component's own [trafficData]: a payload with the
    time it was taken in. *)
Record Entry : Type := mkEntry {
  timestamp : Z;
  requests : option Q;
  bytes : option Q;
  responseTime : option Q;
  successRate : option Q;
}.

(** [{timestamp: Date.now(), ...newEntry}] *)
Definition stamp (now : Z) (newEntry : App.Traffic) : Entry :=
  {| timestamp := now;
     requests := App.requests newEntry;
     bytes := App.bytes newEntry;
     responseTime := App.responseTime newEntry;
     successRate := App.successRate newEntry |}.

(** The effect that processes incoming data: [data] is the prop, [now]
    the clock reading of the updater. *)
Definition onData (now : Z) (data : list App.Traffic) (prev : list Entry)
    : list Entry :=
  if (0 <? length data)%nat then
    match data !! (length data - 1)%nat with
    | Some newEntry => Js.slice_last 100 (prev ++ [stamp now newEntry])
    | None => prev (* not reached: the index is in range *)
    end
  else prev.

(** The mock data of the simulation interval; [r1] to [r4] are its
    [Math.random()] draws. *)
Definition mockData (r1 r2 r3 r4 : Q) : App.Traffic :=
  {| App.requests := Some (inject_Z (Qfloor (r1 * 100)));
     App.bytes := Some (inject_Z (Qfloor (r2 * 1000000)));
     App.responseTime := Some (r3 * 100 + 50)%Q;
     App.successRate := Some (95 + r4 * 5)%Q |}.

(** The callback of the simulation interval. *)
Definition onMockTick (now : Z) (r1 r2 r3 r4 : Q) (prev : list Entry)
    : list Entry :=
  Js.slice_last 100 (prev ++ [stamp now (mockData r1 r2 r3 r4)]).

(** What happens to the component: its [data] prop changes, or the
    simulation interval runs.  The simulation effect depends on
    [trafficData.length] and sets the interval only when that is 0, so the
    interval is set exactly while the log is empty. *)
Inductive Event : Type :=
| Data (now : Z) (data : list App.Traffic)
| MockTick (now : Z) (r1 r2 r3 r4 : Q).

Definition exec (e : Event) (prev : list Entry) : option (list Entry) :=
  match e with
  | Data now data => Some (onData now data prev)
  | MockTick now r1 r2 r3 r4 =>
      if (length prev =? 0)%nat then Some (onMockTick now r1 r2 r3 r4 prev)
      else None
  end.

Fixpoint run (events : list Event) (prev : list Entry)
    : option (list Entry) :=
  match events with
  | [] => Some prev
  | e :: rest =>
      match exec e prev with
      | Some next => run rest next
      | None => None
      end
  end.

(** The number of runs of the simulation interval in a sequence. *)
Definition mockTicks (events : list Event) : nat :=
  length (List.filter
            (fun e => match e with MockTick _ _ _ _ _ => true | _ => false end)
            events).

Record Summary : Type := mkSummary {
  totalRequests : Q;
  avgResponseTime : Q;
  summarySuccessRate : Q;   (* the property [successRate] *)
  throughput : Q;
  peakRequests : Q;
  errorRate : Q;
}.

(** [xs.length > 0 ? sum / xs.length : d] *)
Definition meanOr (d : Q) (xs : list Q) : Q :=
  if (0 <? length xs)%nat
  then Js.sum xs / inject_Z (Z.of_nat (length xs))
  else d.

(** [calculateStats], with exact sums and means. *)
Definition calculateStats (trafficData : list Entry) : Summary :=
  if (length trafficData =? 0)%nat then
    {| totalRequests := 0; avgResponseTime := 0; summarySuccessRate := 100;
       throughput := 0; peakRequests := 0; errorRate := 0 |}
  else
    let recentData := Js.slice_last 30 trafficData in
    let requests := map (fun d => Js.or_zero (requests d)) recentData in
    let responseTimes :=
      map (fun d => Js.or_zero (responseTime d)) recentData in
    let successRates :=
      map (fun d => Js.or_else (successRate d) 100) recentData in
    {| totalRequests := Js.sum requests;
       avgResponseTime := meanOr 0 responseTimes;
       summarySuccessRate := meanOr 100 successRates;
       throughput := meanOr 0 requests;
       peakRequests := default 0%Q (Js.max_list (requests ++ [0%Q]));
       errorRate := 100 - meanOr 100 successRates |}.

End TrafficFlow.

(** ** utils/api.js *)

Module Api.

(** The request interceptor: [storage] is [localStorage], [headers] the
    headers of the request configuration, which is otherwise returned as
    it is. *)
Definition requestInterceptor (storage headers : gmap string string)
    : gmap string string :=
  match storage !! "token"%string with
  | Some token =>
      if negb (String.eqb token "")
      then <[ "Authorization"%string := ("Bearer " +:+ token)%string ]> headers
      else headers
  | None => headers
  end.

(** The error a failed request is rejected with: the server responded
    with a status, the request got no response, or it could not be made. *)
Inductive ApiError : Type :=
| Responded (status : Z)
| NoResponse
| NotSent.

(** What the response interceptor can change. *)
Record Browser : Type := mkBrowser {
  storage : gmap string string;   (* localStorage *)
  href : string;                  (* window.location.href *)
}.

(** The error handler of the response interceptor; it logs, and rejects
    with the same error in every case. *)
Definition responseError (error : ApiError) (b : Browser) : Browser :=
  match error with
  | Responded status =>
      if status =? 401
      then {| storage := delete "token"%string (storage b);
              href := "/login" |}
      else b
  | NoResponse => b
  | NotSent => b
  end.

End Api.

(** ** NetworkTopology.jsx *)

Module NetworkTopology.

(** [arr.forEach((item, index) => ...)] as a fold over the state the
    callback updates. *)
Fixpoint forEach {A St : Type} (f : A -> nat -> St -> St) (xs : list A)
    (index : nat) (st : St) : St :=
  match xs with
  | [] => st
  | x :: rest => forEach f rest (S index) (f x index st)
  end.

(** The measured size of the container ([clientWidth], [clientHeight]). *)
Record Dimensions : Type := mkDimensions {
  width : Z;
  height : Z;
}.

Inductive NodeType : Type := lb | server.

(** A value of the [positions] object; [props] holds the server the
    spread [...server] copies into a server node.  A server has no [x],
    [y] or [type] property, so the spread leaves these three as computed. *)
Record Node : Type := mkNode {
  x : R;
  y : R;
  type : NodeType;
  props : option Entity.Server;
}.

(** The key of a server in the [positions] object. *)
Definition serverKey (s : Entity.Server) : string :=
  Js.prop_key (Entity.name s).

(** The node the callback of [servers.forEach] builds for the server at
    [index]; [n] is [servers.length]. *)
Definition serverNode (dimensions : Dimensions) (n : nat)
    (s : Entity.Server) (index : nat) : Node :=
  let centerX := (IZR (width dimensions) / 2)%R in
  let centerY := (IZR (height dimensions) / 2)%R in
  let angle := (INR index * 2 * PI / INR n)%R in
  let radius :=
    (Rmin (IZR (width dimensions)) (IZR (height dimensions)) * (3 / 10))%R in
  {| x := (centerX + radius * cos angle)%R;
     y := (centerY + radius * sin angle)%R;
     type := server;
     props := Some s |}.

(** The callback of [servers.forEach] in [calculatePositions]. *)
Definition placeServer (dimensions : Dimensions) (n : nat)
    (s : Entity.Server) (index : nat) (positions : gmap string Node)
    : gmap string Node :=
  <[ serverKey s := serverNode dimensions n s index ]> positions.

(** [calculatePositions]; [positions] maps a name to the node a read of
    [positions[name]] finds after the assignments.  For every name but
    [__proto__] the assignment creates or replaces an own property.  For
    [__proto__] it sets the prototype of the object, which a read of that
    name returns, and creates no own property: the domain of the map is
    the set of own properties only when no server has that name. *)
Definition calculatePositions (dimensions : Dimensions)
    (servers : list Entity.Server) : gmap string Node :=
  let centerX := (IZR (width dimensions) / 2)%R in
  let centerY := (IZR (height dimensions) / 2)%R in
  let positions : gmap string Node :=
    {[ "lb"%string :=
         {| x := centerX; y := centerY; type := lb; props := None |} ]} in
  forEach (placeServer dimensions (length servers)) servers 0%nat positions.

(** *** The traffic animation effect

    The effect and its callbacks run on the browser's event loop.  The
    loop is modelled in discrete time, one unit per millisecond: a timer
    callback runs in the millisecond it is due, and the clock moves on
    only when nothing is due. *)

Record TrafficEvent : Type := mkEvent {
  id : Z;
  from : string;
  to : option string;
}.

(** A pending [setTimeout] of the effect: the millisecond it is due and
    the [id] its callback closes over. *)
Record Timeout : Type := mkTimeout {
  due : Z;
  target : Z;
}.

Record World : Type := mkWorld {
  now : Z;                       (* Date.now() *)
  servers : list Entity.Server;  (* the prop the effect closed over *)
  traffic : list TrafficEvent;   (* the [traffic] state *)
  timeouts : list Timeout;       (* pending removal callbacks *)
  interval : option Z;           (* next run of the interval, if set *)
}.

(** The callback of [setInterval]; [random] is the [Math.random()] draw.
    Reading [.name] of an index out of range throws, and the callback
    then changes nothing. *)
Definition onInterval (random : Q) (w : World)
    : list TrafficEvent * list Timeout :=
  if (0 <? length (servers w))%nat then
    let index :=
      Z.to_nat (Qfloor (random * inject_Z (Z.of_nat (length (servers w))))) in
    match servers w !! index with
    | Some s =>
        let id := now w in
        (traffic w ++ [ {| id := id; from := "lb"; to := Entity.name s |} ],
         timeouts w ++ [ {| due := now w + 2000; target := id |} ])
    | None => (traffic w, timeouts w)
    end
  else (traffic w, timeouts w).

(** The callback of [setTimeout]: the updater of [setTraffic]. *)
Definition onTimeout (id0 : Z) (prev : list TrafficEvent)
    : list TrafficEvent :=
  List.filter (fun t => negb (id t =? id0)) prev.

(** The pending timer of the removal callback for [id0] due at [t]. *)
Definition is_timer (t id0 : Z) (c : Timeout) : bool :=
  (due c =? t) && (target c =? id0).

(** Drops the first timer for which [p] holds. *)
Fixpoint remove_first (p : Timeout -> bool) (cs : list Timeout)
    : list Timeout :=
  match cs with
  | [] => []
  | c :: rest => if p c then rest else c :: remove_first p rest
  end.

(** What can happen on the event loop. *)
Inductive Action : Type :=
| Tick (random : Q)      (* the interval callback runs *)
| Expire (id0 : Z)       (* the removal callback of event [id0] runs *)
| Wait                   (* one millisecond passes *)
| Cleanup                (* the effect's cleanup: [clearInterval] *)
| Setup (servers' : list Entity.Server). (* the effect runs (again) *)

(** No timer is due at or before the current millisecond. *)
Definition idle (w : World) : bool :=
  forallb (fun c => now w <? due c) (timeouts w)
  && match interval w with
     | Some d => now w <? d
     | None => true
     end.

(** One action; [None] when the action cannot happen in [w]. *)
Definition exec (a : Action) (w : World) : option World :=
  match a with
  | Tick random =>
      match interval w with
      | Some d =>
          if d =? now w then
            let (traffic', timeouts') := onInterval random w in
            Some {| now := now w; servers := servers w;
                    traffic := traffic'; timeouts := timeouts';
                    interval := Some (d + 500) |}
          else None
      | None => None
      end
  | Expire id0 =>
      if existsb (is_timer (now w) id0) (timeouts w) then
        Some {| now := now w; servers := servers w;
                traffic := onTimeout id0 (traffic w);
                timeouts := remove_first (is_timer (now w) id0) (timeouts w);
                interval := interval w |}
      else None
  | Wait =>
      if idle w then
        Some {| now := now w + 1; servers := servers w;
                traffic := traffic w; timeouts := timeouts w;
                interval := interval w |}
      else None
  | Cleanup =>
      Some {| now := now w; servers := servers w;
              traffic := traffic w; timeouts := timeouts w;
              interval := None |}
  | Setup servers' =>
      match interval w with
      | None =>
          Some {| now := now w; servers := servers';
                  traffic := traffic w; timeouts := timeouts w;
                  interval := Some (now w + 500) |}
      | Some _ => None
      end
  end.

(** A sequence of actions, in order. *)
Fixpoint run (actions : list Action) (w : World) : option World :=
  match actions with
  | [] => Some w
  | a :: rest =>
      match exec a w with
      | Some w' => run rest w'
      | None => None
      end
  end.

(** The component right after it mounted at time [t0]: no traffic, the
    interval set by the first run of the effect. *)
Definition mount (t0 : Z) (servers0 : list Entity.Server) : World :=
  {| now := t0; servers := servers0; traffic := []; timeouts := [];
     interval := Some (t0 + 500) |}.

(** The worlds the component can be in. *)
Definition reachable (w : World) : Prop :=
  exists t0 servers0 actions, run actions (mount t0 servers0) = Some w.

(** The removal timer the interval callback registers with an event. *)
Definition timerOf (e : TrafficEvent) : Timeout :=
  {| due := id e + 2000; target := id e |}.

(** The latest millisecond at which the interval callback can have run. *)
Definition lastTick (w : World) : Z :=
  match interval w with
  | Some d => d - 500
  | None => now w
  end.

(** What holds of every world the component can be in: each event in
    flight has its own pending removal timer, in the same order; the ids
    are distinct and not later than the last tick; no timer is overdue; the
    interval, when set, runs next within 500 ms. *)
Record consistent (w : World) : Prop := mkConsistent {
  timers_match : timeouts w = map timerOf (traffic w);
  ids_distinct : NoDup (map id (traffic w));
  ids_past : forall e, e ∈ traffic w -> id e <= lastTick w;
  not_overdue : forall e, e ∈ traffic w -> now w <= id e + 2000;
  interval_near : forall d, interval w = Some d -> d - 500 <= now w <= d;
}.

(** The removal callback of event [id0] has run: its time has passed and
    no timer for [id0] is pending. *)
Definition expired (id0 : Z) (w : World) : Prop :=
  id0 + 2000 <= now w /\ forall c, c ∈ timeouts w -> target c <> id0.

(** The length of the connection line drawn from the hub to [node]. *)
Definition connectionWidth (positions : gmap string Node) (node : Node)
    : option R :=
  match positions !! "lb"%string with
  | Some hub =>
      Some (sqrt ((x node - x hub) ^ 2 + (y node - y hub) ^ 2))%R
  | None => None (* not reached: [positions.lb] is always set *)
  end.

(** The [--distance] of the animation of a traffic event, or [None] when
    one of its end points has no position and nothing is drawn. *)
Definition trafficDistance (positions : gmap string Node) (e : TrafficEvent)
    : option R :=
  match positions !! from e, positions !! Js.prop_key (to e) with
  | Some source, Some dest =>
      Some (sqrt ((x dest - x source) ^ 2 + (y dest - y source) ^ 2))%R
  | _, _ => None
  end.

(** The effect runs again (with a new server list). *)
Definition isSetup (a : Action) : bool :=
  match a with
  | Setup _ => true
  | _ => false
  end.

(** Every event in flight goes from the hub to a server of the current
    list. *)
Definition targetsKnown (w : World) : Prop :=
  forall e, e ∈ traffic w ->
  from e = "lb"%string /\ exists s, s ∈ servers w /\ to e = Entity.name s.

(** Successive ids are at least 500 ms apart. *)
Definition spaced (ids : list Z) : Prop :=
  StronglySorted (fun a b => a + 500 <= b) ids.

End NetworkTopology.

(** * Properties *)

(** ** Array helpers *)

Section SliceLast.
Context {A : Type}.

Lemma length_slice_last (n : nat) (xs : list A) :
  length (Js.slice_last n xs) = Nat.min n (length xs).
Proof. unfold Js.slice_last. rewrite length_skipn. lia. Qed.

Lemma slice_last_short (n : nat) (xs : list A) :
  (length xs <= n)%nat -> Js.slice_last n xs = xs.
Proof.
  intros Hle. unfold Js.slice_last.
  replace (length xs - n)%nat with 0%nat by lia. reflexivity.
Qed.

Lemma slice_last_full (n : nat) (x : A) (xs : list A) :
  length xs = n -> Js.slice_last n (x :: xs) = xs.
Proof.
  intros Hlen. unfold Js.slice_last. cbn [length].
  replace (S (length xs) - n)%nat with 1%nat by lia. reflexivity.
Qed.

Lemma slice_last_app (n : nat) (older recent : list A) :
  length recent = n -> Js.slice_last n (older ++ recent) = recent.
Proof.
  intros Hlen. unfold Js.slice_last. rewrite length_app.
  replace (length older + length recent - n)%nat with (length older) by lia.
  apply drop_app_length.
Qed.

End SliceLast.

(** ** The health classifier *)

Lemma gt_exceeds (v : option Q) (limit : Q) :
  Js.gt v limit = true <-> Js.exceeds v limit.
Proof.
  unfold Js.gt, Js.exceeds. destruct v as [q|].
  - rewrite negb_true_iff, <- not_true_iff_false, Qle_bool_iff. split.
    + intros Hn. exists q. split; [reflexivity | now apply Qnot_le_lt].
    + intros (q' & [= <-] & Hlt). now apply Qlt_not_le.
  - split; [discriminate | intros (q & [=] & _)].
Qed.

Import ServerMetrics.

(** C2. [getServerStatus] is a total function of one server snapshot and its
    first matching rule wins: a server whose [healthy] is [false] is
    unhealthy whatever its other fields are; otherwise it is in warning when
    [cpu_usage > 80] or [memory_usage > 85]; otherwise it is healthy.  So
    [{healthy: true, cpu_usage: 90}] is in warning and
    [{healthy: true, cpu_usage: 10, memory_usage: 10}] is healthy. *)
Theorem getServerStatus_first_match :
  (forall s, Entity.healthy s = Some false -> getServerStatus s = Unhealthy)
  /\ (forall s, Entity.healthy s <> Some false ->
        Js.exceeds (Entity.cpu_usage s) 80
        \/ Js.exceeds (Entity.memory_usage s) 85 ->
        getServerStatus s = Warning)
  /\ (forall s, Entity.healthy s <> Some false ->
        ~ Js.exceeds (Entity.cpu_usage s) 80 ->
        ~ Js.exceeds (Entity.memory_usage s) 85 ->
        getServerStatus s = Healthy)
  /\ getServerStatus
       (Entity.mkServer None (Some 90%Q) None None None None None (Some true)
          None None None) = Warning
  /\ getServerStatus
       (Entity.mkServer None (Some 10%Q) (Some 10%Q) None None None None
          (Some true) None None None) = Healthy.
Proof.
  split; [|split; [|split; [|split]]]; try reflexivity.
  - intros s Hs. unfold getServerStatus. now rewrite Hs.
  - intros s Hs Hover. unfold getServerStatus.
    rewrite bool_decide_eq_false_2 by assumption.
    destruct Hover as [Hc | Hm].
    + apply gt_exceeds in Hc. now rewrite Hc.
    + apply gt_exceeds in Hm. rewrite Hm. now rewrite orb_true_r.
  - intros s Hs Hc Hm. unfold getServerStatus.
    rewrite bool_decide_eq_false_2 by assumption.
    destruct (Js.gt (Entity.cpu_usage s) 80) eqn:Ec.
    { exfalso. now apply Hc, gt_exceeds. }
    destruct (Js.gt (Entity.memory_usage s) 85) eqn:Em.
    { exfalso. now apply Hm, gt_exceeds. }
    reflexivity.
Qed.

(** ** The per-server history buffer *)


Lemma appendSample_bounded (now : Z) (server : Entity.Server)
    (prev : gmap string (list Sample)) :
  bounded prev -> bounded (appendSample now server prev).
Proof.
  intros Hprev key history. unfold appendSample.
  destruct (decide (Js.prop_key (Entity.name server) = key)) as [-> | Hne].
  - rewrite lookup_insert_eq. intros [= <-].
    rewrite length_app, length_slice_last. cbn [length]. lia.
  - rewrite lookup_insert_ne by assumption. apply Hprev.
Qed.

Lemma recordServer_bounded (entry : Entity.Server * Z)
    (prev : gmap string (list Sample)) :
  bounded prev -> bounded (recordServer entry prev).
Proof.
  destruct entry as [server now]. unfold recordServer.
  destruct (Js.truthy_str (Entity.name server)); [|easy].
  apply appendSample_bounded.
Qed.

Lemma updateMetricsHistory_bounded (servers : list (Entity.Server * Z)) :
  forall prev, bounded prev -> bounded (updateMetricsHistory servers prev).
Proof.
  unfold updateMetricsHistory.
  induction servers as [|entry rest IH]; intros prev Hprev; [easy|].
  cbn. now apply IH, recordServer_bounded.
Qed.

Lemma historyFrom_bounded (runs : list (list (Entity.Server * Z))) :
  forall prev, bounded prev ->
  bounded (fold_left (fun acc servers => updateMetricsHistory servers acc)
             runs prev).
Proof.
  induction runs as [|servers rest IH]; intros prev Hprev; [easy|].
  cbn. now apply IH, updateMetricsHistory_bounded.
Qed.

(** C3. After any number of runs of the history effect, every server's
    buffer holds at most 20 samples; an append to a buffer of 20 drops
    exactly its oldest sample and keeps the others in order, followed by
    the new one; an append to a shorter buffer drops nothing. *)
Theorem history_bounded_fifo :
  (forall runs key history,
      historyAfter runs !! key = Some history -> (length history <= 20)%nat)
  /\ (forall now server prev oldest rest,
        prev !! Js.prop_key (Entity.name server) = Some (oldest :: rest) ->
        length rest = 19%nat ->
        appendSample now server prev !! Js.prop_key (Entity.name server)
        = Some (rest ++ [newEntry now server]))
  /\ (forall now server prev history,
        prev !! Js.prop_key (Entity.name server) = Some history ->
        (length history <= 19)%nat ->
        appendSample now server prev !! Js.prop_key (Entity.name server)
        = Some (history ++ [newEntry now server])).
Proof.
  split; [|split].
  - intros runs. apply historyFrom_bounded. intros key history.
    rewrite lookup_empty. discriminate.
  - intros now server prev oldest rest Hprev Hlen. unfold appendSample.
    rewrite lookup_insert_eq, Hprev. unfold from_option, Datatypes.id.
    now rewrite slice_last_full.
  - intros now server prev history Hprev Hlen. unfold appendSample.
    rewrite lookup_insert_eq, Hprev. unfold from_option, Datatypes.id.
    now rewrite slice_last_short.
Qed.

(** ** The two-point trend *)

Lemma calculateTrend_recent (m : gmap string (list Sample))
    (serverName metric : string) (older : list Sample)
    (secondLast last : Sample) :
  m !! serverName = Some (older ++ [secondLast; last]) ->
  calculateTrend m serverName metric
  = Js.minus (Js.to_number (get metric last))
             (Js.to_number (get metric secondLast)).
Proof.
  intros Hm. unfold calculateTrend. rewrite Hm.
  rewrite length_app. cbn [length].
  replace (length older + 2 <? 2)%nat with false
    by (symmetry; apply Nat.ltb_ge; lia).
  now rewrite slice_last_app.
Qed.

Lemma two_latest {A : Type} (xs : list A) :
  (2 <= length xs)%nat ->
  exists older secondLast last, xs = older ++ [secondLast; last].
Proof.
  intros Hlen.
  destruct (rev xs) as [|last [|secondLast older]] eqn:Hrev.
  - apply (f_equal (@length A)) in Hrev. rewrite length_rev in Hrev.
    cbn in Hrev. lia.
  - apply (f_equal (@length A)) in Hrev. rewrite length_rev in Hrev.
    cbn in Hrev. lia.
  - exists (rev older), secondLast, last.
    rewrite <- (rev_involutive xs), Hrev. cbn.
    now rewrite <- app_assoc.
Qed.




Lemma get_unstored (metric : string) (entry : Sample) :
  metric ∉ ["timestamp"; "cpu"; "memory"; "connections"]%string ->
  get metric entry = None.
Proof.
  intros Hnot. unfold get.
  repeat match goal with
  | |- context [String.eqb metric ?k] =>
      destruct (String.eqb_spec metric k) as [-> | _];
      [exfalso; apply Hnot; set_solver|]
  end.
  reflexivity.
Qed.

(** C10 (as amended). The trend is a number only for the fields a sample
    stores: [timestamp], [cpu], [memory] and [connections].  For a server
    with at least two samples, [calculateTrend] with any other name, and so
    with ["avg_response_time"], which the detail view passes, yields [NaN]. *)
Theorem calculateTrend_unstored_nan
    (m : gmap string (list Sample)) (serverName : string)
    (history : list Sample) :
  m !! serverName = Some history ->
  (2 <= length history)%nat ->
  (forall metric,
      metric ∉ ["timestamp"; "cpu"; "memory"; "connections"]%string ->
      calculateTrend m serverName metric = Js.NaN)
  /\ calculateTrend m serverName "avg_response_time" = Js.NaN.
Proof.
  intros Hm Hlen.
  destruct (two_latest history Hlen) as (older & secondLast & last & ->).
  assert (Hall : forall metric,
             metric ∉ ["timestamp"; "cpu"; "memory"; "connections"]%string ->
             calculateTrend m serverName metric = Js.NaN).
  { intros metric Hnot. rewrite (calculateTrend_recent _ _ _ _ _ _ Hm).
    now rewrite !get_unstored. }
  split; [exact Hall|].
  apply Hall. intros Hin.
  repeat (apply elem_of_cons in Hin as [[=] | Hin]).
  now apply elem_of_nil in Hin.
Qed.

Lemma calculateTrend_unstored_nan_witness :
  calculateTrend
    {[ "s1"%string := [mkSample 1000 10 10 2; mkSample 6000 30 10 3] ]}
    "s1" "avg_response_time" = Js.NaN.
Proof.
  apply (calculateTrend_unstored_nan
           {[ "s1"%string := [mkSample 1000 10 10 2; mkSample 6000 30 10 3] ]}
           "s1" [mkSample 1000 10 10 2; mkSample 6000 30 10 3]).
  - apply lookup_singleton_eq.
  - simpl. lia.
Defined.

(** C10, counterexample to the claim as stated: ["timestamp"] is a name
    other than [cpu], [memory] and [connections], and the trend of it is
    the number of milliseconds between the two latest samples, not [NaN]. *)
Lemma calculateTrend_timestamp_number :
  calculateTrend
    {[ "s1"%string := [mkSample 1000 10 10 2; mkSample 6000 30 10 3] ]}
    "s1" "timestamp" = Js.Num (5000 # 1)
  /\ calculateTrend
       {[ "s1"%string := [mkSample 1000 10 10 2; mkSample 6000 30 10 3] ]}
       "s1" "timestamp" <> Js.NaN.
Proof.
  rewrite (calculateTrend_recent _ _ _ [] (mkSample 1000 10 10 2)
             (mkSample 6000 30 10 3)) by apply lookup_singleton_eq.
  split; [reflexivity | discriminate].
Qed.

(** ** The traffic log of [App] *)

Import App.

Lemma onmessage_log_bound (data : Message) (st : State) :
  (length (trafficData (onmessage data st)) <= 51)%nat
  \/ trafficData (onmessage data st) = trafficData st.
Proof.
  destruct data as [payload | payload | type]; cbn; [now right | left | now right].
  rewrite length_app, length_slice_last. cbn [length]. lia.
Qed.

Lemma receive_log_bound (messages : list Message) :
  forall st, (length (trafficData st) <= 51)%nat ->
  (length (trafficData (receive messages st)) <= 51)%nat.
Proof.
  unfold receive.
  induction messages as [|data rest IH]; intros st Hst; [exact Hst|].
  cbn. apply IH.
  destruct (onmessage_log_bound data st) as [Hle | Heq]; [exact Hle|].
  now rewrite Heq.
Qed.

(** C6. The updater of the traffic log keeps the last 50 entries of the
    previous log and then appends the new payload: the log never holds more
    than 51 entries, and 51 [traffic_update] messages fill it with 51; the
    52nd leaves it at 51, dropping the oldest entry. *)
Theorem traffic_log_holds_51 :
  (forall messages,
      (length (trafficData (receive messages initial)) <= 51)%nat)
  /\ (forall payload,
        length (trafficData
                  (receive (repeat (traffic_update payload) 51) initial))
        = 51%nat)
  /\ (forall payload,
        length (trafficData
                  (receive (repeat (traffic_update payload) 52) initial))
        = 51%nat).
Proof.
  split; [|split].
  - intros messages. apply receive_log_bound. cbn. lia.
  - intros payload. reflexivity.
  - intros payload. reflexivity.
Qed.

(** ** The algorithm-change command *)

(** C9 (as amended). When the command succeeds, [changeAlgorithm] sets the
    algorithm label and starts a refresh ([fetchStats]): the refresh, when
    its request succeeds, replaces [stats] by the response and [servers] by
    its [server_stats] (an empty list when absent), and changes nothing when
    it fails; the traffic log and the simulation flag are never changed.
    When the command does not succeed (the request throws, or [success] is
    not true), the state is unchanged. *)
Theorem changeAlgorithm_effect :
  (forall newAlgo data refresh st,
      success data = Some true ->
      let st' := changeAlgorithm newAlgo (Some data) refresh st in
      algorithm st' = newAlgo
      /\ trafficData st' = trafficData st
      /\ isSimulating st' = isSimulating st
      /\ match refresh with
         | Some body =>
             stats st' = Some body
             /\ servers st' = default [] (server_stats body)
         | None => stats st' = stats st /\ servers st' = servers st
         end)
  /\ (forall newAlgo data refresh st,
        success data <> Some true ->
        changeAlgorithm newAlgo (Some data) refresh st = st)
  /\ (forall newAlgo refresh st,
        changeAlgorithm newAlgo None refresh st = st).
Proof.
  split; [|split].
  - intros newAlgo data refresh st Hok. unfold changeAlgorithm.
    rewrite bool_decide_eq_true_2 by assumption.
    destruct refresh as [body|]; cbn; auto.
  - intros newAlgo data refresh st Hfail. unfold changeAlgorithm.
    now rewrite bool_decide_eq_false_2 by assumption.
  - reflexivity.
Qed.

(** C9, counterexample to the claim as stated: a successful change of the
    algorithm on the freshly mounted state, followed by the refresh it
    starts, also replaces [stats] and [servers]. *)
Lemma changeAlgorithm_refreshes_stats :
  let server1 :=
    Entity.mkServer (Some "s1"%string) None None None None None None None
      None None None in
  let body := mkStats (Some 7%Q) None None (Some "ip_hash"%string)
                (Some [server1]) in
  let st' := changeAlgorithm "ip_hash" (Some (mkResult (Some true)))
               (Some body) initial in
  stats initial = None /\ stats st' = Some body
  /\ servers initial = [] /\ servers st' = [server1].
Proof. cbn. repeat split. Qed.

(** ** The windowed request rate *)

(** *** Signs of binary64 results *)

Lemma ltb_zero_left (x : float) :
  (0 <? x)%float = F64.above_zero (FloatOps.Prim2SF x).
Proof.
  rewrite FloatAxioms.ltb_spec.
  change (FloatOps.Prim2SF 0) with (SpecFloat.S754_zero false).
  unfold SpecFloat.SFltb. cbn.
  destruct (FloatOps.Prim2SF x) as [s | s | | s m e]; try reflexivity;
    now destruct s.
Qed.

Lemma ltb_zero_right (x : float) :
  (x <? 0)%float = F64.below_zero (FloatOps.Prim2SF x).
Proof.
  rewrite FloatAxioms.ltb_spec.
  change (FloatOps.Prim2SF 0) with (SpecFloat.S754_zero false).
  unfold SpecFloat.SFltb. cbn.
  destruct (FloatOps.Prim2SF x) as [s | s | | s m e]; try reflexivity;
    now destruct s.
Qed.

Lemma above_not_positive (f : SpecFloat.spec_float) :
  F64.above_zero f = negb (F64.not_positive f).
Proof. now destruct f as [s | s | | s m e]. Qed.

Lemma below_not_negative (f : SpecFloat.spec_float) :
  F64.below_zero f = negb (F64.not_negative f).
Proof. destruct f as [s | s | | s m e]; cbn; now rewrite ?negb_involutive. Qed.

(** Rounding a quotient or an integer to binary64 keeps the sign it is
    given. *)
Lemma binary_round_aux_sign (s : bool) (mx ex : Z) (lx : SpecFloat.location) :
  match SpecFloat.binary_round_aux FloatOps.prec FloatOps.emax s mx ex lx with
  | SpecFloat.S754_zero s' => s' = s
  | SpecFloat.S754_infinity s' => s' = s
  | SpecFloat.S754_finite s' _ _ => s' = s
  | SpecFloat.S754_nan => True
  end.
Proof.
  unfold SpecFloat.binary_round_aux.
  destruct (SpecFloat.shr_fexp _ _ mx ex lx) as [mrs' e'].
  destruct (SpecFloat.shr_fexp _ _ _ e' _) as [mrs'' e''].
  destruct (SpecFloat.shr_m mrs''); cbn; auto.
  destruct (_ <=? _); cbn; auto.
Qed.

Lemma div_not_positive (x y : float) :
  F64.below_zero (FloatOps.Prim2SF x) = true ->
  F64.above_zero (FloatOps.Prim2SF y) = true ->
  F64.not_positive (FloatOps.Prim2SF (x / y)) = true.
Proof.
  rewrite FloatAxioms.div_spec. unfold FloatAxioms.SF64div, SpecFloat.SFdiv.
  destruct (FloatOps.Prim2SF x) as [sx | sx | | sx mx ex]; try discriminate;
    destruct (FloatOps.Prim2SF y) as [sy | sy | | sy my ey]; try discriminate;
    cbn; intros -> Hy; apply negb_true_iff in Hy as ->; try reflexivity.
  destruct (SpecFloat.SFdiv_core_binary _ _ _ _ _ _) as [[mz ez] lz].
  pose proof (binary_round_aux_sign true mz ez lz) as Hsign.
  destruct (SpecFloat.binary_round_aux _ _ _ _ _ _); cbn; auto.
Qed.

Lemma div_not_negative (x y : float) :
  F64.below_zero (FloatOps.Prim2SF x) = false ->
  F64.above_zero (FloatOps.Prim2SF y) = true ->
  F64.not_negative (FloatOps.Prim2SF (x / y)) = true.
Proof.
  rewrite FloatAxioms.div_spec. unfold FloatAxioms.SF64div, SpecFloat.SFdiv.
  destruct (FloatOps.Prim2SF x) as [sx | sx | | sx mx ex];
    destruct (FloatOps.Prim2SF y) as [sy | sy | | sy my ey]; try discriminate;
    cbn; intros Hx Hy; apply negb_true_iff in Hy; subst; try reflexivity.
  destruct (SpecFloat.SFdiv_core_binary _ _ _ _ _ _) as [[mz ez] lz].
  pose proof (binary_round_aux_sign false mz ez lz) as Hsign.
  destruct (SpecFloat.binary_round_aux _ _ _ _ _ _); cbn; subst; auto.
Qed.

(** The number an unsigned integer converts to is not negative. *)
Lemma of_uint63_sign (n : PrimInt63.int) :
  match FloatOps.Prim2SF (of_uint63 n) with
  | SpecFloat.S754_zero s => s = false
  | SpecFloat.S754_infinity s => s = false
  | SpecFloat.S754_finite s _ _ => s = false
  | SpecFloat.S754_nan => True
  end.
Proof.
  rewrite FloatAxioms.of_uint63_spec.
  pose proof (Uint63.to_Z_bounded n) as [Hlo _].
  unfold SpecFloat.binary_normalize.
  destruct (Uint63.to_Z n) as [|p|p]; [reflexivity | | lia].
  unfold SpecFloat.binary_round.
  destruct (SpecFloat.shl_align _ _ _) as [mz ez].
  apply binary_round_aux_sign.
Qed.

Lemma of_Z_not_positive (z : Z) :
  F64.not_positive (FloatOps.Prim2SF (F64.of_Z true z)) = true.
Proof.
  unfold F64.of_Z. rewrite FloatAxioms.opp_spec.
  pose proof (of_uint63_sign (Uint63.of_Z (Z.abs z))) as Hsign.
  destruct (FloatOps.Prim2SF _); cbn; subst; auto.
Qed.

Lemma of_Z_not_negative (z : Z) :
  F64.not_negative (FloatOps.Prim2SF (F64.of_Z false z)) = true.
Proof.
  unfold F64.of_Z.
  pose proof (of_uint63_sign (Uint63.of_Z (Z.abs z))) as Hsign.
  destruct (FloatOps.Prim2SF _); cbn; subst; auto.
Qed.

(** [Math.round] keeps the sign of its argument. *)
Lemma round_not_positive (x : float) :
  F64.not_positive (FloatOps.Prim2SF x) = true ->
  F64.not_positive (FloatOps.Prim2SF (F64.round x)) = true.
Proof.
  intros Hx. unfold F64.round.
  destruct (FloatOps.Prim2SF x) as [s | s | | s m e] eqn:Hsf;
    try (rewrite Hsf; exact Hx).
  cbn in Hx. subst s.
  destruct (0 <=? e); [now rewrite Hsf|]. apply of_Z_not_positive.
Qed.

Lemma round_not_negative (x : float) :
  F64.not_negative (FloatOps.Prim2SF x) = true ->
  F64.not_negative (FloatOps.Prim2SF (F64.round x)) = true.
Proof.
  intros Hx. unfold F64.round.
  destruct (FloatOps.Prim2SF x) as [s | s | | s m e] eqn:Hsf;
    try (rewrite Hsf; exact Hx).
  cbn in Hx. apply negb_true_iff in Hx. subst s.
  destruct (0 <=? e); [now rewrite Hsf|]. apply of_Z_not_negative.
Qed.

(** *** The rate *)

Lemma performance_latest (r1 r2 r3 : float)
    (older : list LoadBalancerStats.AlgorithmEntry)
    (previous current : LoadBalancerStats.AlgorithmEntry) :
  LoadBalancerStats.requestRate
    (LoadBalancerStats.calculateAlgorithmPerformance r1 r2 r3
       (older ++ [previous; current]))
  = let requestChange :=
      (LoadBalancerStats.totalRequests current
       - LoadBalancerStats.totalRequests previous)%float in
    let timeDiff :=
      ((LoadBalancerStats.timestamp current
        - LoadBalancerStats.timestamp previous) / 1000)%float in
    if (0 <? timeDiff)%float
    then F64.round (requestChange / timeDiff)
    else 0%float.
Proof.
  unfold LoadBalancerStats.calculateAlgorithmPerformance.
  rewrite length_app. cbn [length].
  replace (length older + 2 <? 2)%nat with false
    by (symmetry; apply Nat.ltb_ge; lia).
  replace (length older + 2 - 1)%nat with (length older + 1)%nat by lia.
  replace (length older + 2 - 2)%nat with (length older + 0)%nat by lia.
  rewrite !lookup_app_r by lia.
  replace (length older + 1 - length older)%nat with 1%nat by lia.
  replace (length older + 0 - length older)%nat with 0%nat by lia.
  cbn [lookup list_lookup].
  cbv zeta. cbn [LoadBalancerStats.requestRate].
  destruct (0 <? _)%float; reflexivity.
Qed.

(** C1 (as amended). [calculateAlgorithmPerformance] reports rate 0 when it
    has fewer than two snapshots.  Otherwise it compares the two latest
    snapshots, whatever the older ones are: with
    [requestChange = current.totalRequests - previous.totalRequests] and
    [timeDiff = (current.timestamp - previous.timestamp) / 1000], the rate
    is 0 unless [timeDiff > 0], and then it is
    [Math.round(requestChange / timeDiff)], in binary64 arithmetic and with
    no clamp: when [totalRequests] decreased the rate is never positive, and
    the rate is negative only when [totalRequests] decreased.  Counters 100
    at 0 s and 300 at 2 s give 100 per second; 17 requests in 272 ms give
    62 per second (the quotient is just below 62.5). *)
Theorem requestRate_unclamped :
  (forall r1 r2 r3 history,
      (length history < 2)%nat ->
      LoadBalancerStats.requestRate
        (LoadBalancerStats.calculateAlgorithmPerformance r1 r2 r3 history)
      = 0%float)
  /\ (forall r1 r2 r3 older previous current,
        let requestChange :=
          (LoadBalancerStats.totalRequests current
           - LoadBalancerStats.totalRequests previous)%float in
        let timeDiff :=
          ((LoadBalancerStats.timestamp current
            - LoadBalancerStats.timestamp previous) / 1000)%float in
        let rate :=
          LoadBalancerStats.requestRate
            (LoadBalancerStats.calculateAlgorithmPerformance r1 r2 r3
               (older ++ [previous; current])) in
        ((0 <? timeDiff)%float = false -> rate = 0%float)
        /\ ((0 <? timeDiff)%float = true ->
            rate = F64.round (requestChange / timeDiff))
        /\ ((requestChange <? 0)%float = true -> (0 <? rate)%float = false)
        /\ ((rate <? 0)%float = true -> (requestChange <? 0)%float = true))
  /\ (forall r1 r2 r3 algo,
        LoadBalancerStats.requestRate
          (LoadBalancerStats.calculateAlgorithmPerformance r1 r2 r3
             [LoadBalancerStats.mkEntry algo 0 3 100;
              LoadBalancerStats.mkEntry algo 2000 3 300]) = 100%float)
  /\ (forall r1 r2 r3 algo,
        LoadBalancerStats.requestRate
          (LoadBalancerStats.calculateAlgorithmPerformance r1 r2 r3
             [LoadBalancerStats.mkEntry algo 1000 3 100;
              LoadBalancerStats.mkEntry algo 1272 3 117]) = 62%float).
Proof.
  split; [|split; [|split]].
  - intros r1 r2 r3 history Hlen.
    unfold LoadBalancerStats.calculateAlgorithmPerformance.
    now apply Nat.ltb_lt in Hlen as ->.
  - intros r1 r2 r3 older previous current requestChange timeDiff rate.
    assert (Hrate : rate = if (0 <? timeDiff)%float
                           then F64.round (requestChange / timeDiff)
                           else 0%float).
    { subst rate. now rewrite performance_latest. }
    split; [|split; [|split]].
    + intros Hguard. now rewrite Hrate, Hguard.
    + intros Hguard. now rewrite Hrate, Hguard.
    + intros Hdrop. rewrite Hrate.
      destruct (0 <? timeDiff)%float eqn:Hguard; [|reflexivity].
      rewrite ltb_zero_left, above_not_positive. apply negb_false_iff.
      apply round_not_positive, div_not_positive.
      * now rewrite <- ltb_zero_right.
      * now rewrite <- ltb_zero_left.
    + intros Hneg. rewrite Hrate in Hneg.
      destruct (0 <? timeDiff)%float eqn:Hguard; [|discriminate].
      destruct (requestChange <? 0)%float eqn:Hdrop; [reflexivity|].
      rewrite ltb_zero_right, below_not_negative in Hneg.
      apply negb_true_iff in Hneg.
      rewrite round_not_negative in Hneg; [discriminate|].
      apply div_not_negative.
      * now rewrite <- ltb_zero_right.
      * now rewrite <- ltb_zero_left.
  - intros r1 r2 r3 algo.
    exact (performance_latest r1 r2 r3 []
             (LoadBalancerStats.mkEntry algo 0 3 100)
             (LoadBalancerStats.mkEntry algo 2000 3 300)).
  - intros r1 r2 r3 algo.
    exact (performance_latest r1 r2 r3 []
             (LoadBalancerStats.mkEntry algo 1000 3 100)
             (LoadBalancerStats.mkEntry algo 1272 3 117)).
Qed.

(** The regression of the counterexample below, through the theorem: the
    counter fell from 300 to 100, and the rate is not positive. *)
Lemma requestRate_unclamped_witness :
  (0 <? LoadBalancerStats.requestRate
          (LoadBalancerStats.calculateAlgorithmPerformance 0 0 0
             ([] ++ [LoadBalancerStats.mkEntry "round_robin" 0 3 300;
                     LoadBalancerStats.mkEntry "round_robin" 1000 3 100])))%float
  = false.
Proof.
  apply (proj1 (proj2 requestRate_unclamped) 0%float 0%float 0%float []
           (LoadBalancerStats.mkEntry "round_robin" 0 3 300)
           (LoadBalancerStats.mkEntry "round_robin" 1000 3 100)).
  reflexivity.
Defined.

(** C1, counterexample to the claim as stated: counters 300 at 0 s and 100
    at 1 s (a regression) give the rate -200, not 0. *)
Lemma requestRate_negative_on_regression :
  LoadBalancerStats.requestRate
    (LoadBalancerStats.calculateAlgorithmPerformance 0 0 0
       [LoadBalancerStats.mkEntry "round_robin" 0 3 300;
        LoadBalancerStats.mkEntry "round_robin" 1000 3 100]) = (-200)%float
  /\ (LoadBalancerStats.requestRate
        (LoadBalancerStats.calculateAlgorithmPerformance 0 0 0
           [LoadBalancerStats.mkEntry "round_robin" 0 3 300;
            LoadBalancerStats.mkEntry "round_robin" 1000 3 100])
      <? 0)%float = true.
Proof. split; reflexivity. Qed.

(** ** The topology layout *)

Import NetworkTopology.

Lemma forEach_place_other (dimensions : Dimensions) (n : nat)
    (ss : list Entity.Server) :
  forall (index : nat) (positions : gmap string Node) (k : string),
  k ∉ map serverKey ss ->
  forEach (placeServer dimensions n) ss index positions !! k = positions !! k.
Proof.
  induction ss as [|s rest IH]; intros index positions k Hk; [reflexivity|].
  cbn in *. apply not_elem_of_cons in Hk as [Hne Hk].
  rewrite IH by assumption. unfold placeServer.
  now rewrite lookup_insert_ne.
Qed.

Lemma forEach_place_lookup (dimensions : Dimensions) (n : nat)
    (ss : list Entity.Server) :
  forall (index : nat) (positions : gmap string Node) (i : nat)
         (s : Entity.Server),
  NoDup (map serverKey ss) ->
  ss !! i = Some s ->
  forEach (placeServer dimensions n) ss index positions !! serverKey s
  = Some (serverNode dimensions n s (index + i)).
Proof.
  induction ss as [|s0 rest IH]; intros index positions i s Hdup Hi;
    [discriminate|].
  cbn in Hdup. apply NoDup_cons in Hdup as [Hfresh Hdup].
  destruct i as [|i]; cbn in Hi |- *.
  - injection Hi as ->. rewrite forEach_place_other by assumption.
    unfold placeServer. rewrite lookup_insert_eq. do 2 f_equal. lia.
  - rewrite (IH (S index) _ i s) by assumption. do 2 f_equal. lia.
Qed.

(** C4 (as amended). [calculatePositions] is a function of the measured
    dimensions and the ordered server list alone.  The positions are keyed
    by server name, the hub under ["lb"]: when the names are pairwise
    distinct and none is ["lb"], the hub is at (width/2, height/2) and
    server [i] of [n] is at angle [2 * PI * i / n] on the circle of radius
    [0.3 * min width height] around the hub; server 0 is due east of the
    hub at that distance. *)
Theorem calculatePositions_circle (dimensions : Dimensions)
    (ss : list Entity.Server) :
  NoDup (map serverKey ss) ->
  "lb"%string ∉ map serverKey ss ->
  let cx := (IZR (width dimensions) / 2)%R in
  let cy := (IZR (height dimensions) / 2)%R in
  let r := (3 / 10 * Rmin (IZR (width dimensions)) (IZR (height dimensions)))%R in
  let n := length ss in
  (forall dimensions' ss',
      dimensions' = dimensions -> ss' = ss ->
      calculatePositions dimensions' ss' = calculatePositions dimensions ss)
  /\ (exists hub,
        calculatePositions dimensions ss !! "lb"%string = Some hub
        /\ x hub = cx /\ y hub = cy /\ type hub = lb)
  /\ (forall i s,
        ss !! i = Some s ->
        exists node,
          calculatePositions dimensions ss !! serverKey s = Some node
          /\ x node = (cx + r * cos (2 * PI * INR i / INR n))%R
          /\ y node = (cy + r * sin (2 * PI * INR i / INR n))%R
          /\ type node = server)
  /\ (forall s rest,
        ss = s :: rest ->
        exists node,
          calculatePositions dimensions ss !! serverKey s = Some node
          /\ x node = (cx + r)%R /\ y node = cy).
Proof.
  intros Hdup Hlb cx cy r n.
  assert (Hplaced : forall i s,
             ss !! i = Some s ->
             calculatePositions dimensions ss !! serverKey s
             = Some (serverNode dimensions n s i)).
  { intros i s Hi. unfold calculatePositions.
    now rewrite (forEach_place_lookup _ _ _ 0%nat _ i s Hdup Hi). }
  split; [|split; [|split]].
  - now intros dimensions' ss' -> ->.
  - eexists. split.
    + unfold calculatePositions. rewrite forEach_place_other by assumption.
      apply lookup_singleton_eq.
    + now cbn.
  - intros i s Hi. exists (serverNode dimensions n s i).
    split; [exact (Hplaced i s Hi)|].
    cbn. subst cx cy r n. repeat split.
    + replace (INR i * 2 * PI / INR (length ss))%R
        with (2 * PI * INR i / INR (length ss))%R by (unfold Rdiv; ring).
      ring.
    + replace (INR i * 2 * PI / INR (length ss))%R
        with (2 * PI * INR i / INR (length ss))%R by (unfold Rdiv; ring).
      ring.
  - intros s rest Hss. exists (serverNode dimensions n s 0). split.
    + apply (Hplaced 0%nat). now rewrite Hss.
    + cbn. subst cx cy r n.
      replace (0 * 2 * PI / INR (length ss))%R with 0%R
        by (unfold Rdiv; ring).
      rewrite cos_0, sin_0. split; ring.
Qed.

Lemma calculatePositions_circle_witness :
  let server1 := Entity.mkServer (Some "s1"%string) None None None None None
                   None None None None None in
  let server2 := Entity.mkServer (Some "s2"%string) None None None None None
                   None None None None None in
  let server3 := Entity.mkServer (Some "s3"%string) None None None None None
                   None None None None None in
  exists node,
    calculatePositions (mkDimensions 300 300) [server1; server2; server3]
      !! "s1"%string = Some node
    /\ x node = 240%R /\ y node = 150%R.
Proof.
  intros server1 server2 server3.
  assert (Hdup : NoDup (map serverKey [server1; server2; server3])).
  { apply (bool_decide_unpack _). vm_compute. exact I. }
  assert (Hlb : "lb"%string ∉ map serverKey [server1; server2; server3]).
  { apply (bool_decide_unpack _). vm_compute. exact I. }
  destruct (calculatePositions_circle (mkDimensions 300 300)
              [server1; server2; server3] Hdup Hlb)
    as (_ & _ & _ & Heast).
  destruct (Heast server1 [server2; server3] eq_refl)
    as (node & Hnode & Hx & Hy).
  exists node. split; [exact Hnode|].
  rewrite Hx, Hy. cbn [width height]. rewrite Rmin_left by lra.
  split; lra.
Defined.

(** C4, counterexample to the claim as stated: in a 300 x 300 viewport,
    with the single server [{name: "lb"}] the entry ["lb"] of the positions
    is that server's node at (240, 150), so the hub is not at the centre
    (150, 150); and with two servers both named ["s1"] the one entry
    ["s1"] is the node of server 1 at (60, 150), so server 0 is not placed
    at angle 0. *)
Lemma calculatePositions_hub_overwritten :
  let named (k : string) :=
    Entity.mkServer (Some k) None None None None None None None None None
      None in
  (exists node,
      calculatePositions (mkDimensions 300 300) [named "lb"] !! "lb"%string
      = Some node
      /\ type node = server /\ x node = 240%R /\ y node = 150%R)
  /\ (exists node,
        calculatePositions (mkDimensions 300 300) [named "s1"; named "s1"]
          !! "s1"%string = Some node
        /\ x node = 60%R /\ y node = 150%R).
Proof.
  intros named. split.
  - eexists. split.
    + unfold calculatePositions. cbn [forEach]. unfold placeServer.
      change (serverKey (named "lb"%string)) with "lb"%string.
      apply lookup_insert_eq.
    + cbn. rewrite Rmin_left by lra.
      replace (0 * 2 * PI / 1)%R with 0%R by (unfold Rdiv; ring).
      rewrite cos_0, sin_0. repeat split; lra.
  - eexists. split.
    + unfold calculatePositions. cbn [forEach]. unfold placeServer.
      change (serverKey (named "s1"%string)) with "s1"%string.
      apply lookup_insert_eq.
    + cbn. rewrite Rmin_left by lra.
      replace (1 * 2 * PI / (1 + 1))%R with PI by field.
      rewrite cos_PI, sin_PI. split; lra.
Qed.

(** ** The traffic animation effect *)

Lemma onInterval_cases (random : Q) (w : World) :
  onInterval random w = (traffic w, timeouts w)
  \/ exists s,
       s ∈ servers w
       /\ onInterval random w
          = (traffic w ++ [ {| id := now w; from := "lb";
                               to := Entity.name s |} ],
             timeouts w ++ [ {| due := now w + 2000; target := now w |} ]).
Proof.
  unfold onInterval.
  destruct (0 <? length (servers w))%nat; [|now left].
  destruct (servers w !! _) as [s|] eqn:Hs; [|now left].
  right. exists s. split; [|reflexivity].
  eapply list_elem_of_lookup_2. exact Hs.
Qed.

Lemma random_index (random : Q) (n : nat) :
  (0 < n)%nat -> (0 <= random)%Q -> (random < 1)%Q ->
  (Z.to_nat (Qfloor (random * inject_Z (Z.of_nat n))) < n)%nat.
Proof.
  intros Hn Hlo Hhi.
  assert (Hpos : (0 < inject_Z (Z.of_nat n))%Q).
  { rewrite <- (Zlt_Qlt 0). lia. }
  assert (Hlt : Qfloor (random * inject_Z (Z.of_nat n)) < Z.of_nat n).
  { rewrite Zlt_Qlt. eapply Qle_lt_trans; [apply Qfloor_le|].
    rewrite <- (Qmult_1_l (inject_Z (Z.of_nat n))) at 2.
    now apply Qmult_lt_compat_r. }
  lia.
Qed.

Lemma onInterval_creates (random : Q) (w : World) :
  servers w <> [] -> (0 <= random)%Q -> (random < 1)%Q ->
  exists s,
    s ∈ servers w
    /\ onInterval random w
       = (traffic w ++ [ {| id := now w; from := "lb";
                            to := Entity.name s |} ],
          timeouts w ++ [ {| due := now w + 2000; target := now w |} ]).
Proof.
  intros Hne Hlo Hhi.
  assert (Hlen : (0 < length (servers w))%nat).
  { destruct (servers w); [congruence | cbn; lia]. }
  pose proof (random_index random _ Hlen Hlo Hhi) as Hidx.
  apply lookup_lt_is_Some_2 in Hidx as [s Hs].
  exists s. split; [eapply list_elem_of_lookup_2; exact Hs|].
  unfold onInterval. apply Nat.ltb_lt in Hlen as ->. now rewrite Hs.
Qed.

Lemma onTimeout_elem (id0 : Z) (prev : list TrafficEvent) (e : TrafficEvent) :
  e ∈ onTimeout id0 prev <-> e ∈ prev /\ id e <> id0.
Proof.
  unfold onTimeout. rewrite !list_elem_of_In, filter_In.
  rewrite negb_true_iff, Z.eqb_neq. reflexivity.
Qed.

Lemma onTimeout_absent (id0 : Z) (prev : list TrafficEvent) :
  id0 ∉ map id prev -> onTimeout id0 prev = prev.
Proof.
  unfold onTimeout.
  induction prev as [|e rest IH]; intros Hnot; [reflexivity|].
  cbn in *. apply not_elem_of_cons in Hnot as [Hne Hnot].
  replace (id e =? id0) with false by (symmetry; apply Z.eqb_neq; congruence).
  cbn. now rewrite IH.
Qed.

Lemma onTimeout_ids_distinct (id0 : Z) (prev : list TrafficEvent) :
  NoDup (map id prev) -> NoDup (map id (onTimeout id0 prev)).
Proof.
  induction prev as [|e rest IH]; intros Hdup; [exact Hdup|].
  cbn in *. apply NoDup_cons in Hdup as [Hfresh Hdup].
  destruct (negb (id e =? id0)); [|now apply IH].
  cbn. apply NoDup_cons. split; [|now apply IH].
  intros Hin. apply Hfresh.
  apply list_elem_of_fmap in Hin as (e' & -> & He').
  apply list_elem_of_fmap. exists e'. split; [reflexivity|].
  now apply onTimeout_elem in He' as [He' _].
Qed.

(** With distinct ids the removal callback takes out exactly one event and
    leaves the others as they were, in order. *)
Lemma onTimeout_exactly_one (prev : list TrafficEvent) (e : TrafficEvent) :
  NoDup (map id prev) -> e ∈ prev ->
  exists before after,
    prev = before ++ e :: after
    /\ onTimeout (id e) prev = before ++ after.
Proof.
  intros Hdup He.
  apply list_elem_of_split in He as (before & after & ->).
  exists before, after. split; [reflexivity|].
  rewrite map_app in Hdup. cbn in Hdup.
  apply NoDup_app in Hdup as (_ & Hbefore & Hafter).
  apply NoDup_cons in Hafter as [Hafter _].
  unfold onTimeout. rewrite List.filter_app. cbn.
  rewrite Z.eqb_refl. cbn. f_equal.
  - apply onTimeout_absent. intros Hin. apply (Hbefore _ Hin). left.
  - now apply onTimeout_absent.
Qed.

Lemma remove_first_timer (t id0 : Z) (prev : list TrafficEvent) :
  id0 + 2000 = t -> NoDup (map id prev) ->
  remove_first (is_timer t id0) (map timerOf prev)
  = map timerOf (onTimeout id0 prev).
Proof.
  intros Ht. induction prev as [|e rest IH]; intros Hdup; [reflexivity|].
  cbn [map] in Hdup. apply NoDup_cons in Hdup as [Hfresh Hdup].
  unfold onTimeout. cbn [map remove_first List.filter].
  fold (onTimeout id0 rest).
  unfold is_timer at 1. cbn [due target timerOf].
  destruct (Z.eqb_spec (id e) id0) as [Heq | Hne].
  - replace (id e + 2000 =? t) with true by (symmetry; apply Z.eqb_eq; lia).
    cbn [andb negb]. rewrite onTimeout_absent; [reflexivity|].
    now rewrite <- Heq.
  - rewrite andb_false_r. cbn [negb map]. now rewrite IH.
Qed.

Lemma timer_due (t id0 : Z) (prev : list TrafficEvent) :
  existsb (is_timer t id0) (map timerOf prev) = true ->
  id0 + 2000 = t /\ exists e, e ∈ prev /\ id e = id0.
Proof.
  rewrite existsb_exists. intros (c & Hc & Hp).
  apply in_map_iff in Hc as (e & <- & He).
  unfold is_timer in Hp. cbn in Hp.
  apply andb_true_iff in Hp as [Hdue Htarget].
  apply Z.eqb_eq in Hdue, Htarget. split; [lia|].
  exists e. split; [now apply list_elem_of_In | exact Htarget].
Qed.

Lemma remove_first_subset (p : Timeout -> bool) (cs : list Timeout)
    (c : Timeout) :
  c ∈ remove_first p cs -> c ∈ cs.
Proof.
  induction cs as [|c0 rest IH]; [easy|]. cbn.
  destruct (p c0); intros Hin.
  - now right.
  - apply elem_of_cons in Hin as [-> | Hin]; [left | right; auto].
Qed.

Lemma consistent_mount (t0 : Z) (servers0 : list Entity.Server) :
  consistent (mount t0 servers0).
Proof.
  split; cbn.
  - reflexivity.
  - constructor.
  - intros e He. now apply elem_of_nil in He.
  - intros e He. now apply elem_of_nil in He.
  - intros d [= <-]. lia.
Qed.

Lemma exec_now (a : Action) (w w' : World) :
  exec a w = Some w' -> now w <= now w' <= now w + 1.
Proof.
  destruct a; cbn; intros Hexec.
  - destruct (interval w) as [d|]; [|discriminate].
    destruct (d =? now w); [|discriminate].
    destruct (onInterval random w). injection Hexec as <-. cbn. lia.
  - destruct (existsb _ _); [|discriminate]. injection Hexec as <-. cbn. lia.
  - destruct (idle w); [|discriminate]. injection Hexec as <-. cbn. lia.
  - injection Hexec as <-. cbn. lia.
  - destruct (interval w); [discriminate|]. injection Hexec as <-. cbn. lia.
Qed.

Lemma run_now (actions : list Action) :
  forall w w', run actions w = Some w' -> now w <= now w'.
Proof.
  induction actions as [|a rest IH]; intros w w' Hrun; cbn in Hrun.
  - injection Hrun as <-. lia.
  - destruct (exec a w) as [w1|] eqn:Hexec; [|discriminate].
    apply exec_now in Hexec. apply IH in Hrun. lia.
Qed.

Lemma tick_consistent (random : Q) (w w' : World) :
  consistent w -> exec (Tick random) w = Some w' -> consistent w'.
Proof.
  intros [Htimers Hdup Hpast Hdue Hnear]. cbn.
  destruct (interval w) as [d|] eqn:Hint; [|discriminate].
  destruct (Z.eqb_spec d (now w)) as [-> | _]; [|discriminate].
  assert (Hold : forall e, e ∈ traffic w -> id e <= now w - 500).
  { intros e He. apply Hpast in He. unfold lastTick in He.
    now rewrite Hint in He. }
  destruct (onInterval_cases random w) as [-> | (s & _ & ->)];
    intros [= <-]; split; cbn; unfold lastTick; cbn.
  - exact Htimers.
  - exact Hdup.
  - intros e He. apply Hold in He. lia.
  - exact Hdue.
  - intros d [= <-]. lia.
  - rewrite Htimers, map_app. reflexivity.
  - rewrite map_app. cbn. apply NoDup_app. split; [exact Hdup|]. split.
    + intros i Hi Hnew. apply list_elem_of_fmap in Hi as (e & -> & He).
      apply Hold in He. apply list_elem_of_singleton in Hnew. lia.
    + apply NoDup_singleton.
  - intros e He. apply elem_of_app in He as [He | He].
    + apply Hold in He. lia.
    + apply list_elem_of_singleton in He as ->. cbn. lia.
  - intros e He. apply elem_of_app in He as [He | He].
    + now apply Hdue.
    + apply list_elem_of_singleton in He as ->. cbn. lia.
  - intros d [= <-]. lia.
Qed.

Lemma expire_consistent (id0 : Z) (w w' : World) :
  consistent w -> exec (Expire id0) w = Some w' -> consistent w'.
Proof.
  intros [Htimers Hdup Hpast Hdue Hnear]. cbn.
  destruct (existsb _ _) eqn:Hpending; [|discriminate].
  rewrite Htimers in Hpending. apply timer_due in Hpending as [Ht _].
  intros [= <-]. split; cbn; unfold lastTick; cbn.
  - rewrite Htimers. now apply remove_first_timer.
  - now apply onTimeout_ids_distinct.
  - intros e He. apply onTimeout_elem in He as [He _]. now apply Hpast.
  - intros e He. apply onTimeout_elem in He as [He _]. now apply Hdue.
  - exact Hnear.
Qed.

Lemma wait_consistent (w w' : World) :
  consistent w -> exec Wait w = Some w' -> consistent w'.
Proof.
  intros [Htimers Hdup Hpast Hdue Hnear]. cbn.
  destruct (idle w) eqn:Hidle; [|discriminate].
  unfold idle in Hidle. apply andb_true_iff in Hidle as [Hlater Hint].
  rewrite forallb_forall in Hlater.
  intros [= <-]. split; cbn; unfold lastTick; cbn.
  - exact Htimers.
  - exact Hdup.
  - intros e He. apply Hpast in He. unfold lastTick in He.
    destruct (interval w); lia.
  - intros e He.
    assert (Hin : In (timerOf e) (timeouts w)).
    { rewrite Htimers. apply in_map. now apply list_elem_of_In. }
    apply Hlater, Z.ltb_lt in Hin. cbn in Hin. lia.
  - intros d Hd. rewrite Hd in Hint. apply Z.ltb_lt in Hint.
    apply Hnear in Hd. lia.
Qed.

Lemma exec_consistent (a : Action) (w w' : World) :
  consistent w -> exec a w = Some w' -> consistent w'.
Proof.
  destruct a as [random | id0 | | | servers'].
  - apply tick_consistent.
  - apply expire_consistent.
  - apply wait_consistent.
  - intros [Htimers Hdup Hpast Hdue Hnear] [= <-].
    split; cbn; unfold lastTick; cbn; try assumption; [|discriminate].
    intros e He. apply Hpast in He. unfold lastTick in He.
    destruct (interval w) as [d|] eqn:Hint; [|exact He].
    specialize (Hnear d eq_refl). lia.
  - intros [Htimers Hdup Hpast Hdue Hnear]. cbn.
    destruct (interval w) eqn:Hint; [discriminate|]. intros [= <-].
    split; cbn; unfold lastTick; cbn; try assumption.
    + intros e He. apply Hpast in He. unfold lastTick in He.
      rewrite Hint in He. lia.
    + intros d [= <-]. lia.
Qed.

Lemma run_consistent (actions : list Action) :
  forall w w', consistent w -> run actions w = Some w' -> consistent w'.
Proof.
  induction actions as [|a rest IH]; intros w w' Hw Hrun; cbn in Hrun.
  - now injection Hrun as <-.
  - destruct (exec a w) as [w1|] eqn:Hexec; [|discriminate].
    eapply IH; [|exact Hrun]. eapply exec_consistent; eassumption.
Qed.

Lemma reachable_consistent (w : World) : reachable w -> consistent w.
Proof.
  intros (t0 & servers0 & actions & Hrun).
  eapply run_consistent; [apply consistent_mount | exact Hrun].
Qed.

Lemma run_app (actions more : list Action) :
  forall w w' w'',
  run actions w = Some w' -> run more w' = Some w'' ->
  run (actions ++ more) w = Some w''.
Proof.
  induction actions as [|a rest IH]; intros w w' w'' Hrun Hmore; cbn in *.
  - now injection Hrun as ->.
  - destruct (exec a w) as [w1|]; [|discriminate]. eapply IH; eassumption.
Qed.

Lemma reachable_run (actions : list Action) (w w' : World) :
  reachable w -> run actions w = Some w' -> reachable w'.
Proof.
  intros (t0 & servers0 & before & Hrun) Hmore.
  exists t0, servers0, (before ++ actions). eapply run_app; eassumption.
Qed.

(** An event in flight survives every action that happens before its
    removal timer is due. *)
Lemma exec_keeps_event (a : Action) (w w' : World) (e : TrafficEvent) :
  consistent w -> exec a w = Some w' ->
  e ∈ traffic w -> now w < id e + 2000 -> e ∈ traffic w'.
Proof.
  intros Hw Hexec He Hearly. destruct a as [random | id0 | | | servers'];
    cbn in Hexec.
  - destruct (interval w) as [d|]; [|discriminate].
    destruct (d =? now w); [|discriminate].
    destruct (onInterval_cases random w) as [Hsame | (s & _ & Hnew)];
      [rewrite Hsame in Hexec | rewrite Hnew in Hexec];
      injection Hexec as <-; cbn; [exact He|].
    apply elem_of_app. now left.
  - destruct (existsb _ _) eqn:Hpending; [|discriminate].
    rewrite (timers_match w Hw) in Hpending.
    apply timer_due in Hpending as [Ht _].
    injection Hexec as <-. cbn. apply onTimeout_elem. split; [exact He|]. lia.
  - destruct (idle w); [|discriminate]. now injection Hexec as <-.
  - now injection Hexec as <-.
  - destruct (interval w); [discriminate|]. now injection Hexec as <-.
Qed.

Lemma run_keeps_event (actions : list Action) (e : TrafficEvent) :
  forall w w',
  consistent w -> run actions w = Some w' ->
  e ∈ traffic w -> now w' < id e + 2000 -> e ∈ traffic w'.
Proof.
  induction actions as [|a rest IH]; intros w w' Hw Hrun He Hearly;
    cbn in Hrun.
  - now injection Hrun as <-.
  - destruct (exec a w) as [w1|] eqn:Hexec; [|discriminate].
    pose proof (run_now _ _ _ Hrun) as Hlater.
    pose proof (exec_now _ _ _ Hexec) as Hstep.
    apply (IH w1 w'); [eapply exec_consistent; eassumption | exact Hrun | | exact Hearly].
    eapply exec_keeps_event; try eassumption. lia.
Qed.

Lemma expired_exec (id0 : Z) (a : Action) (w w' : World) :
  expired id0 w -> exec a w = Some w' -> expired id0 w'.
Proof.
  intros [Hpast Hnone] Hexec.
  pose proof (exec_now _ _ _ Hexec) as Hstep.
  split; [lia|]. destruct a as [random | id1 | | | servers']; cbn in Hexec.
  - destruct (interval w) as [d|]; [|discriminate].
    destruct (d =? now w); [|discriminate].
    destruct (onInterval_cases random w) as [Hsame | (s & _ & Hnew)];
      [rewrite Hsame in Hexec | rewrite Hnew in Hexec];
      injection Hexec as <-; cbn; [exact Hnone|].
    intros c Hc. apply elem_of_app in Hc as [Hc | Hc]; [now apply Hnone|].
    apply list_elem_of_singleton in Hc as ->. cbn. lia.
  - destruct (existsb _ _); [|discriminate]. injection Hexec as <-. cbn.
    intros c Hc. apply remove_first_subset in Hc. now apply Hnone.
  - destruct (idle w); [|discriminate]. now injection Hexec as <-.
  - now injection Hexec as <-.
  - destruct (interval w); [discriminate|]. now injection Hexec as <-.
Qed.

Lemma expired_run (id0 : Z) (actions : list Action) :
  forall w w', expired id0 w -> run actions w = Some w' -> expired id0 w'.
Proof.
  induction actions as [|a rest IH]; intros w w' Hw Hrun; cbn in Hrun.
  - now injection Hrun as <-.
  - destruct (exec a w) as [w1|] eqn:Hexec; [|discriminate].
    eapply IH; [|exact Hrun]. eapply expired_exec; eassumption.
Qed.

Lemma expired_disabled (id0 : Z) (w : World) :
  expired id0 w -> exec (Expire id0) w = None.
Proof.
  intros [_ Hnone]. cbn.
  destruct (existsb _ _) eqn:Hpending; [|reflexivity].
  apply existsb_exists in Hpending as (c & Hc & Hp).
  apply list_elem_of_In, Hnone in Hc. unfold is_timer in Hp.
  apply andb_true_iff in Hp as [_ Htarget]. apply Z.eqb_eq in Htarget.
  contradiction.
Qed.

(** What one run of the removal callback does. *)
Lemma expire_effect (id0 : Z) (w w' : World) :
  consistent w -> exec (Expire id0) w = Some w' ->
  now w = id0 + 2000
  /\ now w' = now w
  /\ expired id0 w'
  /\ exists before e after,
       id e = id0
       /\ traffic w = before ++ e :: after
       /\ traffic w' = before ++ after.
Proof.
  intros Hw Hexec. pose proof (expire_consistent _ _ _ Hw Hexec) as Hw'.
  cbn in Hexec. destruct (existsb _ _) eqn:Hpending; [|discriminate].
  rewrite (timers_match w Hw) in Hpending.
  apply timer_due in Hpending as (Ht & e & He & Hid).
  injection Hexec as <-. pose proof (timers_match _ Hw') as Htm.
  cbn in Htm |- *.
  split; [lia|]. split; [reflexivity|]. split.
  - split; cbn; [lia|]. intros c Hc. rewrite Htm in Hc.
    apply list_elem_of_fmap in Hc as (e' & -> & He').
    apply onTimeout_elem in He' as [_ Hne]. exact Hne.
  - destruct (onTimeout_exactly_one _ _ (ids_distinct w Hw) He)
      as (before & after & Hsplit & Hrest).
    exists before, e, after. rewrite <- Hid. auto.
Qed.

(** The loop never gets stuck on a due timer: when time cannot pass, the
    interval callback or a removal callback can run. *)
Lemma due_callback_runs (w : World) :
  consistent w -> exec Wait w = None ->
  (exists random w', exec (Tick random) w = Some w')
  \/ (exists e w', e ∈ traffic w /\ exec (Expire (id e)) w = Some w').
Proof.
  intros Hw Hwait. cbn in Hwait.
  destruct (idle w) eqn:Hidle; [discriminate|]. unfold idle in Hidle.
  apply andb_false_iff in Hidle as [Htimer | Hint].
  - right. apply not_true_iff_false in Htimer.
    rewrite forallb_forall in Htimer.
    destruct (decide (Exists (fun c => due c <= now w) (timeouts w)))
      as [Hex | Hno].
    + apply Exists_exists in Hex as (c & Hc & Hdue).
      rewrite (timers_match w Hw) in Hc.
      apply list_elem_of_fmap in Hc as (e & -> & He). cbn in Hdue.
      pose proof (not_overdue w Hw e He) as Hnot.
      exists e. cbn.
      assert (Hpending :
                existsb (is_timer (now w) (id e)) (timeouts w) = true).
      { apply existsb_exists. exists (timerOf e). split.
        - rewrite (timers_match w Hw). apply in_map.
          now apply list_elem_of_In.
        - unfold is_timer. cbn. rewrite Z.eqb_refl, andb_true_r.
          apply Z.eqb_eq. lia. }
      rewrite Hpending. eauto.
    + exfalso. apply Htimer. intros c Hc. apply Z.ltb_lt.
      destruct (Z_le_gt_dec (due c) (now w)) as [Hle | Hgt]; [|lia].
      exfalso. apply Hno, Exists_exists. exists c.
      split; [now apply list_elem_of_In | exact Hle].
  - left. destruct (interval w) as [d|] eqn:Hd; [|discriminate].
    apply Z.ltb_ge in Hint. pose proof (interval_near w Hw d Hd) as Hnear.
    exists 0%Q. cbn. rewrite Hd.
    replace (d =? now w) with true by (symmetry; apply Z.eqb_eq; lia).
    destruct (onInterval 0 w). eauto.
Qed.

(** *** Progress of the loop *)

Lemma idle_intro (w : World) :
  consistent w ->
  (forall d, interval w = Some d -> now w < d) ->
  (forall e, e ∈ traffic w -> id e + 2000 <> now w) ->
  idle w = true.
Proof.
  intros Hw Hint Hev. unfold idle. apply andb_true_iff. split.
  - apply forallb_forall. intros c Hc. rewrite (timers_match w Hw) in Hc.
    apply in_map_iff in Hc as (e & <- & He). apply list_elem_of_In in He.
    cbn. apply Z.ltb_lt. pose proof (not_overdue w Hw e He).
    specialize (Hev e He). lia.
  - destruct (interval w) as [d|]; [|reflexivity].
    apply Z.ltb_lt. now apply Hint.
Qed.

(** The interval callback can run as soon as it is due. *)
Lemma tick_enabled (random : Q) (w : World) (d : Z) :
  interval w = Some d -> now w = d ->
  exists w',
    exec (Tick random) w = Some w'
    /\ now w' = now w /\ servers w' = servers w
    /\ interval w' = Some (d + 500)
    /\ traffic w' = fst (onInterval random w).
Proof.
  intros Hd Hnow. cbn. rewrite Hd, <- Hnow, Z.eqb_refl.
  destruct (onInterval random w) as [traffic' timeouts'].
  eexists. split; [reflexivity|]. now cbn.
Qed.

(** The callbacks that are due in the current millisecond can all be run,
    after which time can pass. *)
Lemma settle (w : World) :
  consistent w ->
  exists actions w0,
    run actions w = Some w0
    /\ now w0 = now w /\ servers w0 = servers w
    /\ idle w0 = true
    /\ (interval w <> Some (now w) -> interval w0 = interval w).
Proof.
  intros Hw.
  assert (Htick : exists actions w1,
             run actions w = Some w1 /\ consistent w1
             /\ now w1 = now w /\ servers w1 = servers w
             /\ (forall d, interval w1 = Some d -> now w1 < d)
             /\ (interval w <> Some (now w) -> interval w1 = interval w)).
  { destruct (interval w) as [d|] eqn:Hd.
    - destruct (Z.eq_dec (now w) d) as [Hdue | Hlater].
      + destruct (tick_enabled 0 w d Hd Hdue)
          as (w1 & Hexec & Hnow1 & Hsrv1 & Hint1 & _).
        exists [Tick 0%Q], w1. cbn [run]. rewrite Hexec.
        split; [reflexivity|].
        split; [eapply exec_consistent; eassumption|].
        split; [exact Hnow1|]. split; [exact Hsrv1|]. split.
        * intros d' Hd'. rewrite Hint1 in Hd'. injection Hd' as <-. lia.
        * intros Hne. exfalso. apply Hne. now rewrite Hdue.
      + exists [], w. split; [reflexivity|]. split; [exact Hw|].
        split; [reflexivity|]. split; [reflexivity|]. split.
        * intros d' Hd'. rewrite Hd in Hd'. injection Hd' as <-.
          pose proof (interval_near w Hw d Hd). lia.
        * intros _. exact Hd.
    - exists [], w. split; [reflexivity|]. split; [exact Hw|].
      split; [reflexivity|]. split; [reflexivity|]. split.
      + intros d' Hd'. rewrite Hd in Hd'. discriminate.
      + intros _. exact Hd. }
  destruct Htick as (pre & w1 & Hpre & Hw1 & Hnow1 & Hsrv1 & Hint1 & Hkeep1).
  destruct (exec (Expire (now w1 - 2000)) w1) as [w2|] eqn:Hexp.
  - exists (pre ++ [Expire (now w1 - 2000)]), w2.
    destruct (expire_effect _ _ _ Hw1 Hexp) as (_ & Hnow2 & Hgone & _).
    pose proof (expire_consistent _ _ _ Hw1 Hexp) as Hw2.
    assert (Hsame : interval w2 = interval w1 /\ servers w2 = servers w1).
    { cbn in Hexp. destruct (existsb _ _); [|discriminate].
      injection Hexp as <-. now cbn. }
    destruct Hsame as [Hint2 Hsrv2].
    split. { eapply run_app; [exact Hpre|]. cbn [run]. now rewrite Hexp. }
    split; [lia|]. split; [congruence|]. split.
    + apply idle_intro; [exact Hw2 | |].
      * intros d Hd. rewrite Hint2 in Hd. apply Hint1 in Hd. lia.
      * intros e He Hdue. destruct Hgone as [_ Hnone].
        apply (Hnone (timerOf e)); [|cbn; lia].
        rewrite (timers_match w2 Hw2). apply list_elem_of_fmap. eauto.
    + intros Hne. rewrite Hint2. now apply Hkeep1.
  - exists pre, w1. split; [exact Hpre|]. split; [exact Hnow1|].
    split; [exact Hsrv1|]. split; [|exact Hkeep1].
    apply idle_intro; [exact Hw1 | exact Hint1 |].
    intros e He Hdue. cbn in Hexp.
    destruct (existsb _ _) eqn:Hpending; [discriminate|].
    apply not_true_iff_false in Hpending. apply Hpending.
    apply existsb_exists. exists (timerOf e). split.
    + rewrite (timers_match w1 Hw1). apply in_map.
      now apply list_elem_of_In.
    + unfold is_timer. cbn. apply andb_true_iff.
      split; apply Z.eqb_eq; lia.
Qed.

(** From any state the loop can reach any later millisecond; on the way an
    interval that is not due before then stays set, and an event whose
    removal is not due before then stays in the active set. *)
Lemma reach_time (n : nat) :
  forall w,
  consistent w ->
  exists actions w1,
    run actions w = Some w1
    /\ now w1 = now w + Z.of_nat n /\ servers w1 = servers w
    /\ (forall d, interval w = Some d -> now w + Z.of_nat n <= d ->
                  interval w1 = Some d)
    /\ (forall e, e ∈ traffic w -> now w + Z.of_nat n <= id e + 2000 ->
                  e ∈ traffic w1).
Proof.
  induction n as [|n IH]; intros w Hw.
  - exists [], w. split; [reflexivity|]. split; [lia|].
    split; [reflexivity|]. auto.
  - destruct (settle w Hw) as (pre & w0 & Hpre & Hnow0 & Hsrv0 & Hidle & Hkeep).
    pose proof (run_consistent _ _ _ Hw Hpre) as Hw0.
    assert (Hwait : exec Wait w0
                    = Some {| now := now w0 + 1; servers := servers w0;
                              traffic := traffic w0; timeouts := timeouts w0;
                              interval := interval w0 |}).
    { cbn. now rewrite Hidle. }
    set (w2 := {| now := now w0 + 1; servers := servers w0;
                  traffic := traffic w0; timeouts := timeouts w0;
                  interval := interval w0 |}) in *.
    pose proof (exec_consistent _ _ _ Hw0 Hwait) as Hw2.
    destruct (IH w2 Hw2) as (post & w1 & Hpost & Hnow1 & Hsrv1 & Hint1 & Hev1).
    exists (pre ++ Wait :: post), w1.
    split. { eapply run_app; [exact Hpre|]. cbn [run]. now rewrite Hwait. }
    split. { rewrite Hnow1. cbn. lia. }
    split. { rewrite Hsrv1. cbn. exact Hsrv0. }
    split.
    + intros d Hd Hle. apply Hint1; [|cbn; lia]. cbn.
      rewrite Hkeep; [exact Hd|]. rewrite Hd. intros [= ->]. lia.
    + intros e He Hle. apply Hev1; [|cbn; lia]. cbn.
      apply (run_keeps_event pre e w w0 Hw Hpre He). lia.
Qed.

(** Nothing is due while the effect waits for its first tick. *)
Lemma wait_for_first_tick (n : nat) :
  forall w d,
  timeouts w = [] -> interval w = Some d -> now w + Z.of_nat n <= d ->
  run (repeat Wait n) w
  = Some {| now := now w + Z.of_nat n; servers := servers w;
            traffic := traffic w; timeouts := timeouts w;
            interval := interval w |}.
Proof.
  induction n as [|n IH]; intros w d Hnone Hd Hle.
  - cbn. destruct w. cbn. f_equal. f_equal. lia.
  - assert (Hidle : idle w = true).
    { unfold idle. rewrite Hnone, Hd. cbn. apply Z.ltb_lt. lia. }
    cbn [repeat run exec]. rewrite Hidle.
    rewrite (IH _ d); cbn; [|assumption|assumption|lia].
    f_equal. f_equal. lia.
Qed.

(** C7. On the event loop with timers that run in the millisecond they are
    due: a run of the interval callback at time [t] with a non-empty server
    list adds exactly one event, with id [t], from the hub to one of the
    current servers, and the next run is 500 ms later; an event in flight
    stays in the active set through time [id + 1999] whatever else happens;
    no event is in the active set from time [id + 2001] on; the removal
    callback of an event runs at [id + 2000], takes exactly that event out
    of the active set, leaves every other event in place and in order, and
    never runs a second time; and time cannot pass a due timer without its
    callback having run.  These runs exist: 500 ms after the mount the
    first tick runs and creates the event with id [t0 + 500]; from any
    state in which the interval is set the loop reaches the time of the
    next tick, where the interval callback runs and creates an event; and
    from any state the loop reaches the time [id + 2000] of an event in
    flight with the event still in the active set, where its removal
    callback runs and removes it. *)
Theorem traffic_event_lifetime :
  (forall w random w',
      reachable w -> exec (Tick random) w = Some w' ->
      servers w <> [] -> (0 <= random)%Q -> (random < 1)%Q ->
      exists s,
        s ∈ servers w
        /\ traffic w'
           = traffic w ++ [ {| id := now w; from := "lb";
                               to := Entity.name s |} ]
        /\ interval w' = Some (now w + 500))
  /\ (forall w e actions w',
        reachable w -> e ∈ traffic w -> run actions w = Some w' ->
        now w' <= id e + 1999 -> e ∈ traffic w')
  /\ (forall w e, reachable w -> id e + 2001 <= now w -> e ∉ traffic w)
  /\ (forall w id0 w',
        reachable w -> exec (Expire id0) w = Some w' ->
        now w = id0 + 2000
        /\ (exists before e after,
              id e = id0
              /\ traffic w = before ++ e :: after
              /\ traffic w' = before ++ after)
        /\ (forall actions w'',
              run actions w' = Some w'' -> exec (Expire id0) w'' = None))
  /\ (forall w,
        reachable w -> exec Wait w = None ->
        (exists random w', exec (Tick random) w = Some w')
        \/ (exists e w', e ∈ traffic w /\ exec (Expire (id e)) w = Some w'))
  /\ (forall t0 servers0 random,
        servers0 <> [] -> (0 <= random)%Q -> (random < 1)%Q ->
        exists s w,
          s ∈ servers0
          /\ run (repeat Wait 500 ++ [Tick random]) (mount t0 servers0)
             = Some w
          /\ now w = t0 + 500
          /\ traffic w = [ {| id := t0 + 500; from := "lb";
                              to := Entity.name s |} ]
          /\ timeouts w = [ {| due := t0 + 2500; target := t0 + 500 |} ]
          /\ interval w = Some (t0 + 1000))
  /\ (forall w d random,
        reachable w -> interval w = Some d ->
        servers w <> [] -> (0 <= random)%Q -> (random < 1)%Q ->
        exists actions w1 w2 s,
          run actions w = Some w1
          /\ now w1 = d
          /\ exec (Tick random) w1 = Some w2
          /\ s ∈ servers w
          /\ traffic w2
             = traffic w1 ++ [ {| id := d; from := "lb";
                                  to := Entity.name s |} ])
  /\ (forall w e,
        reachable w -> e ∈ traffic w ->
        exists actions w1 w2,
          run actions w = Some w1
          /\ now w1 = id e + 2000
          /\ e ∈ traffic w1
          /\ exec (Expire (id e)) w1 = Some w2
          /\ e ∉ traffic w2).
Proof.
  split; [|split; [|split; [|split; [|split; [|split; [|split]]]]]].
  - intros w random w' _ Hexec Hne Hlo Hhi.
    destruct (onInterval_creates random w Hne Hlo Hhi) as (s & Hs & Hnew).
    exists s. split; [exact Hs|]. cbn in Hexec.
    destruct (interval w) as [d|]; [|discriminate].
    destruct (Z.eqb_spec d (now w)) as [Hd | _]; [|discriminate].
    rewrite Hnew, Hd in Hexec. injection Hexec as <-. now cbn.
  - intros w e actions w' Hw He Hrun Hearly.
    apply (run_keeps_event actions e w w');
      [now apply reachable_consistent | exact Hrun | exact He | lia].
  - intros w e Hw Hlate He.
    apply reachable_consistent in Hw.
    pose proof (not_overdue w Hw e He). lia.
  - intros w id0 w' Hw Hexec. apply reachable_consistent in Hw.
    destruct (expire_effect id0 w w' Hw Hexec)
      as (Hdue & _ & Hgone & Hone).
    split; [exact Hdue|]. split; [exact Hone|].
    intros actions w'' Hrun. apply expired_disabled.
    eapply expired_run; eassumption.
  - intros w Hw. apply due_callback_runs. now apply reachable_consistent.
  - intros t0 servers0 random Hne Hlo Hhi.
    pose proof (wait_for_first_tick 500 (mount t0 servers0) (t0 + 500)
                  eq_refl eq_refl) as Hwait.
    cbn [mount now servers traffic timeouts interval] in Hwait.
    specialize (Hwait ltac:(lia)).
    change (Z.of_nat 500) with 500 in Hwait.
    set (w500 := {| now := t0 + 500; servers := servers0;
                    traffic := []; timeouts := [];
                    interval := Some (t0 + 500) |}) in *.
    destruct (onInterval_creates random w500 Hne Hlo Hhi) as (s & Hs & Hnew).
    destruct (tick_enabled random w500 (t0 + 500) eq_refl)
      as (w & Hexec & Hnow & _ & Hint & _); [cbn; lia|].
    exists s, w. split; [exact Hs|].
    split. { eapply run_app; [exact Hwait|]. cbn [run]. now rewrite Hexec. }
    cbn in Hexec. rewrite Z.eqb_refl, Hnew in Hexec.
    injection Hexec as <-. cbn.
    repeat split;
      first [reflexivity | (f_equal; lia) | (do 2 f_equal; lia)].
  - intros w d random Hreach Hd Hne Hlo Hhi.
    pose proof (reachable_consistent w Hreach) as Hw.
    pose proof (interval_near w Hw d Hd) as Hnear.
    destruct (reach_time (Z.to_nat (d - now w)) w Hw)
      as (actions & w1 & Hrun & Hnow1 & Hsrv1 & Hint1 & _).
    assert (Hd1 : interval w1 = Some d) by (apply Hint1; [exact Hd | lia]).
    assert (Hnow : now w1 = d) by lia.
    destruct (tick_enabled random w1 d Hd1 Hnow)
      as (w2 & Hexec & _ & _ & _ & Htraffic).
    rewrite <- Hsrv1 in Hne.
    destruct (onInterval_creates random w1 Hne Hlo Hhi) as (s & Hs & Hnew).
    exists actions, w1, w2, s.
    split; [exact Hrun|]. split; [exact Hnow|]. split; [exact Hexec|].
    split; [now rewrite <- Hsrv1|].
    rewrite Htraffic, Hnew. cbn. now rewrite Hnow.
  - intros w e Hreach He.
    pose proof (reachable_consistent w Hreach) as Hw.
    pose proof (not_overdue w Hw e He) as Hdue.
    destruct (reach_time (Z.to_nat (id e + 2000 - now w)) w Hw)
      as (actions & w1 & Hrun & Hnow1 & _ & _ & Hev1).
    assert (He1 : e ∈ traffic w1) by (apply Hev1; [exact He | lia]).
    assert (Hnow : now w1 = id e + 2000) by lia.
    pose proof (run_consistent _ _ _ Hw Hrun) as Hw1.
    assert (Hpending :
              existsb (is_timer (now w1) (id e)) (timeouts w1) = true).
    { apply existsb_exists. exists (timerOf e). split.
      - rewrite (timers_match w1 Hw1). apply in_map.
        now apply list_elem_of_In.
      - unfold is_timer. cbn. rewrite Z.eqb_refl, andb_true_r.
        apply Z.eqb_eq. lia. }
    exists actions, w1. eexists.
    split; [exact Hrun|]. split; [exact Hnow|]. split; [exact He1|].
    cbn [exec]. rewrite Hpending. split; [reflexivity|]. cbn.
    intros Hin. apply onTimeout_elem in Hin as [_ Hne]. now apply Hne.
Qed.

(** The first event of a component mounted at time 0 with one server,
    through the theorem: created by the tick at 500, it is in the active
    set at time 2499, after the ticks of 1000, 1500 and 2000. *)
Lemma traffic_event_lifetime_witness :
  let server1 :=
    Entity.mkServer (Some "s1"%string) None None None None None None None
      None None None in
  let event (t : Z) := {| id := t; from := "lb"; to := Some "s1"%string |} in
  let timer (t : Z) := {| due := t + 2000; target := t |} in
  let ticks := repeat Wait 500 ++ [Tick (1 # 2)] in
  event 500
    ∈ traffic {| now := 2499; servers := [server1];
                 traffic := [event 500; event 1000; event 1500; event 2000];
                 timeouts := [timer 500; timer 1000; timer 1500; timer 2000];
                 interval := Some 2500 |}.
Proof.
  intros server1 event timer ticks.
  apply (proj1 (proj2 traffic_event_lifetime)
           {| now := 500; servers := [server1]; traffic := [event 500];
              timeouts := [timer 500]; interval := Some 1000 |}
           (event 500)
           (ticks ++ ticks ++ ticks ++ repeat Wait 499)).
  - exists 0, [server1], ticks. vm_compute. reflexivity.
  - left.
  - vm_compute. reflexivity.
  - vm_compute. discriminate.
Defined.

(** A run of the loop from the mount at time 0 with one server: the first
    tick at 500 creates event 500; it is in the active set at 2499; its
    removal callback runs at 2500 (the tick of that time runs too), after
    which the events of the later ticks are left. *)
Example traffic_event_trace :
  let server1 :=
    Entity.mkServer (Some "s1"%string) None None None None None None None
      None None None in
  let event (t : Z) := {| id := t; from := "lb"; to := Some "s1"%string |} in
  let ticks := repeat Wait 500 ++ [Tick (1 # 2)] in
  (traffic <$> run (ticks ++ ticks ++ ticks ++ ticks ++ repeat Wait 499)
                   (mount 0 [server1]))
  = Some [event 500; event 1000; event 1500; event 2000]
  /\ (traffic <$> run (ticks ++ ticks ++ ticks ++ ticks ++ repeat Wait 500
                         ++ [Expire 500; Tick (1 # 2); Wait])
                      (mount 0 [server1]))
     = Some [event 1000; event 1500; event 2000; event 2500]
  /\ (now <$> run (ticks ++ ticks ++ ticks ++ ticks ++ repeat Wait 500
                     ++ [Expire 500; Tick (1 # 2); Wait])
                  (mount 0 [server1]))
     = Some 2501
  /\ run (ticks ++ ticks ++ ticks ++ ticks ++ repeat Wait 501)
         (mount 0 [server1]) = None.
Proof. vm_compute. repeat split. Qed.

(** C8 (as amended). The cleanup of the traffic effect clears the interval
    and nothing else: the active set and the pending removal timers are as
    before, so no further tick runs, but the removal timer of every event
    in flight stays pending, and when its time comes the clock cannot pass
    it and its callback can run. *)
Theorem cleanup_clears_interval_only (w : World) :
  reachable w ->
  exists w',
    exec Cleanup w = Some w'
    /\ interval w' = None
    /\ now w' = now w
    /\ traffic w' = traffic w
    /\ timeouts w' = timeouts w
    /\ (forall random, exec (Tick random) w' = None)
    /\ (forall e, e ∈ traffic w -> timerOf e ∈ timeouts w')
    /\ (forall e actions w'',
          e ∈ traffic w -> run actions w' = Some w'' ->
          now w'' = id e + 2000 -> e ∈ traffic w'' ->
          exec Wait w'' = None
          /\ exists w''', exec (Expire (id e)) w'' = Some w''').
Proof.
  intros Hw. eexists. split; [reflexivity|]. cbn.
  pose proof (reachable_consistent w Hw) as Hc.
  repeat split; try reflexivity.
  - intros e He. rewrite (timers_match w Hc).
    apply list_elem_of_fmap. eauto.
  - assert (Hc'' : consistent w'').
    { eapply run_consistent; [|eassumption].
      exact (exec_consistent Cleanup w _ Hc eq_refl). }
    assert (Hin : In (timerOf e) (timeouts w'')).
    { rewrite (timers_match w'' Hc''). apply in_map.
      now apply list_elem_of_In. }
    cbn. unfold idle.
    replace (forallb (fun c => now w'' <? due c) (timeouts w'')) with false;
      [reflexivity|].
    symmetry. apply not_true_iff_false. rewrite forallb_forall.
    intros Hall. apply Hall, Z.ltb_lt in Hin. cbn in Hin. lia.
  - assert (Hc'' : consistent w'').
    { eapply run_consistent; [|eassumption].
      exact (exec_consistent Cleanup w _ Hc eq_refl). }
    cbn.
    replace (existsb (is_timer (now w'') (id e)) (timeouts w'')) with true;
      [eauto|].
    symmetry. apply existsb_exists. exists (timerOf e). split.
    + rewrite (timers_match w'' Hc''). apply in_map.
      now apply list_elem_of_In.
    + unfold is_timer. cbn. rewrite Z.eqb_refl, andb_true_r.
      apply Z.eqb_eq. lia.
Qed.

Lemma cleanup_clears_interval_only_witness :
  let server1 :=
    Entity.mkServer (Some "s1"%string) None None None None None None None
      None None None in
  let w :=
    {| now := 500; servers := [server1];
       traffic := [ {| id := 500; from := "lb"; to := Some "s1"%string |} ];
       timeouts := [ {| due := 2500; target := 500 |} ];
       interval := Some 1000 |} in
  exists w',
    exec Cleanup w = Some w'
    /\ interval w' = None
    /\ timeouts w' = [ {| due := 2500; target := 500 |} ].
Proof.
  intros server1 w.
  assert (Hw : reachable w).
  { exists 0, [server1], (repeat Wait 500 ++ [Tick 0]).
    vm_compute. reflexivity. }
  destruct (cleanup_clears_interval_only w Hw)
    as (w' & Hexec & Hint & _ & _ & Htimers & _).
  exists w'. split; [exact Hexec|]. split; [exact Hint | exact Htimers].
Defined.

(** C8, counterexample to the claim as stated: mounted at time 0 with one
    server, the effect creates event 500 at the first tick and is cleaned
    up right after; 2000 ms later the removal timer of the event is still
    pending, and its callback runs and empties the active set. *)
Lemma removal_fires_after_cleanup :
  let server1 :=
    Entity.mkServer (Some "s1"%string) None None None None None None None
      None None None in
  let stopped :=
    {| now := 2500; servers := [server1];
       traffic := [ {| id := 500; from := "lb"; to := Some "s1"%string |} ];
       timeouts := [ {| due := 2500; target := 500 |} ];
       interval := None |} in
  run (repeat Wait 500 ++ [Tick 0; Cleanup] ++ repeat Wait 2000)
      (mount 0 [server1]) = Some stopped
  /\ exec (Expire 500) stopped
     = Some {| now := 2500; servers := [server1]; traffic := [];
               timeouts := []; interval := None |}.
Proof. vm_compute. split; reflexivity. Qed.

(** * Further properties of the dashboard code *)

(** ** Sliding windows *)

Section Window.
Context {A : Type}.

Lemma slice_last_snoc (n : nat) (xs : list A) (x : A) :
  Js.slice_last n xs ++ [x] = Js.slice_last (S n) (xs ++ [x]).
Proof.
  unfold Js.slice_last. rewrite length_app. cbn [length].
  replace (length xs + 1 - S n)%nat with (length xs - n)%nat by lia.
  rewrite skipn_app.
  replace (length xs - n - length xs)%nat with 0%nat by lia.
  reflexivity.
Qed.

Lemma slice_last_absorb (n : nat) (xs ys : list A) :
  Js.slice_last n (Js.slice_last n xs ++ ys) = Js.slice_last n (xs ++ ys).
Proof.
  unfold Js.slice_last. rewrite !length_app, length_skipn.
  destruct (Nat.le_gt_cases (length xs) n) as [Hle | Hgt].
  - replace (length xs - n)%nat with 0%nat by lia.
    rewrite Nat.sub_0_r. reflexivity.
  - rewrite !skipn_app, length_skipn, skipn_skipn.
    f_equal; [f_equal; lia | f_equal; lia].
Qed.

(** Appending one by one through a window of [n] kept entries leaves the
    last [n + 1] of everything appended. *)
Lemma window_fold (n : nat) (more : list A) :
  forall (xs : list A) (x : A),
  fold_left (fun acc y => Js.slice_last n acc ++ [y]) more
    (Js.slice_last n xs ++ [x])
  = Js.slice_last (S n) (xs ++ x :: more).
Proof.
  induction more as [|y more IH]; intros xs x; cbn [fold_left].
  - apply slice_last_snoc.
  - rewrite IH, slice_last_snoc, slice_last_absorb.
    now rewrite <- app_assoc.
Qed.

Lemma window_fold_all (n : nat) (new xs : list A) :
  new <> [] ->
  fold_left (fun acc y => Js.slice_last n acc ++ [y]) new xs
  = Js.slice_last (S n) (xs ++ new).
Proof.
  destruct new as [|x more]; [congruence|]. intros _. cbn [fold_left].
  apply window_fold.
Qed.

End Window.

(** ** The metrics history, run by run *)

Lemma appendSample_window (now : Z) (server : Entity.Server)
    (prev : gmap string (list Sample)) :
  appendSample now server prev !! Js.prop_key (Entity.name server)
  = Some (Js.slice_last 20
            (default [] (prev !! Js.prop_key (Entity.name server))
             ++ [newEntry now server])).
Proof.
  unfold appendSample. rewrite lookup_insert_eq. f_equal.
  apply slice_last_snoc.
Qed.

Lemma updateMetricsHistory_lookup (servers : list (Entity.Server * Z)) :
  forall (prev : gmap string (list Sample)) (key : string),
  updateMetricsHistory servers prev !! key
  = match samplesFor key servers with
    | [] => prev !! key
    | _ :: _ =>
        Some (Js.slice_last 20
                (default [] (prev !! key) ++ samplesFor key servers))
    end.
Proof.
  unfold updateMetricsHistory.
  induction servers as [|[server now] rest IH]; intros prev key;
    [reflexivity|].
  cbn [fold_left]. rewrite IH. unfold recordServer, samplesFor.
  cbn [List.filter fst snd].
  destruct (Js.truthy_str (Entity.name server)); cbn [andb]; [|reflexivity].
  destruct (String.eqb_spec (Js.prop_key (Entity.name server)) key)
    as [<- | Hne].
  - cbn [map]. fold (samplesFor (Js.prop_key (Entity.name server)) rest).
    rewrite appendSample_window. cbn [from_option]. unfold Datatypes.id.
    destruct (samplesFor _ rest) as [|sample more]; [reflexivity|].
    f_equal. rewrite slice_last_absorb. now rewrite <- app_assoc.
  - fold (samplesFor key rest). unfold appendSample.
    now rewrite lookup_insert_ne.
Qed.

(** X1. For servers whose names are not names of members of
    [Object.prototype], one run of the history effect leaves, for every
    key, the last 20 of the samples it had followed by the samples of this
    run that belong to the key, in order; in particular the newest sample
    of a server that was in the run is the last one of its buffer. *)
Theorem history_keeps_latest_20 :
  (forall servers prev key,
      (forall server now,
          (server, now) ∈ servers ->
          Js.truthy_str (Entity.name server) = true ->
          Js.inherited (Js.prop_key (Entity.name server)) = None) ->
      updateMetricsHistory servers prev !! key
      = match samplesFor key servers with
        | [] => prev !! key
        | _ :: _ =>
            Some (Js.slice_last 20
                    (default [] (prev !! key) ++ samplesFor key servers))
        end)
  /\ (forall servers prev key earlier latest,
        (forall server now,
            (server, now) ∈ servers ->
            Js.truthy_str (Entity.name server) = true ->
            Js.inherited (Js.prop_key (Entity.name server)) = None) ->
        samplesFor key servers = earlier ++ [latest] ->
        exists older,
          updateMetricsHistory servers prev !! key = Some (older ++ [latest])).
Proof.
  split; [intros; apply updateMetricsHistory_lookup|].
  intros servers prev key earlier latest _ Hsamples.
  rewrite updateMetricsHistory_lookup, Hsamples.
  destruct (earlier ++ [latest]) as [|x xs] eqn:Hne.
  { now destruct earlier. }
  rewrite <- Hne, app_assoc, <- slice_last_snoc. eauto.
Qed.

(** Two snapshots of the server ["s1"] in one run, through the theorem:
    the later one is the last entry of its buffer. *)
Lemma history_keeps_latest_20_witness :
  let snapshot (load : Q) :=
    Entity.mkServer (Some "s1"%string) (Some load) None None None None None
      None None None None in
  exists older,
    updateMetricsHistory [(snapshot 95%Q, 1); (snapshot 50%Q, 2)] ∅
      !! "s1"%string
    = Some (older ++ [mkSample 2 50 0 0]).
Proof.
  intros snapshot.
  apply (proj2 history_keeps_latest_20
           [(snapshot 95%Q, 1); (snapshot 50%Q, 2)] ∅ "s1"%string
           [mkSample 1 95 0 0] (mkSample 2 50 0 0)).
  - intros server now Hin _.
    repeat (apply elem_of_cons in Hin as [[= -> _] | Hin]; [reflexivity|]).
    now apply elem_of_nil in Hin.
  - reflexivity.
Defined.

(** X2. A run of the history effect changes only the buffers of the
    servers it names: the buffer of any other key is as before, a server
    whose name is missing or empty records nothing, and no buffer is ever
    removed. *)
Theorem history_untouched_elsewhere :
  (forall servers prev key,
      (forall server now,
          (server, now) ∈ servers ->
          Js.truthy_str (Entity.name server) = true ->
          Js.prop_key (Entity.name server) <> key) ->
      updateMetricsHistory servers prev !! key = prev !! key)
  /\ (forall servers prev,
        (forall server now,
            (server, now) ∈ servers ->
            Entity.name server = None \/ Entity.name server = Some ""%string) ->
        updateMetricsHistory servers prev = prev)
  /\ (forall servers prev key,
        is_Some (prev !! key) ->
        is_Some (updateMetricsHistory servers prev !! key)).
Proof.
  assert (Hnone : forall servers key,
             (forall server now,
                 (server, now) ∈ servers ->
                 Js.truthy_str (Entity.name server) = true ->
                 Js.prop_key (Entity.name server) <> key) ->
             samplesFor key servers = []).
  { intros servers key. unfold samplesFor.
    induction servers as [|[server now] rest IH]; intros Hother;
      [reflexivity|].
    cbn [List.filter fst snd].
    destruct (Js.truthy_str (Entity.name server)) eqn:Hname; cbn [andb].
    - destruct (String.eqb_spec (Js.prop_key (Entity.name server)) key)
        as [Heq | _].
      + exfalso. apply (Hother server now); [left | exact Hname | exact Heq].
      + apply IH. intros s t Hin. apply (Hother s t). now right.
    - apply IH. intros s t Hin. apply (Hother s t). now right. }
  split; [|split].
  - intros servers prev key Hother.
    now rewrite updateMetricsHistory_lookup, Hnone.
  - intros servers prev Hunnamed. apply map_eq. intros key.
    rewrite updateMetricsHistory_lookup, Hnone; [reflexivity|].
    intros server now Hin Htruthy.
    destruct (Hunnamed server now Hin) as [Hn | Hn];
      rewrite Hn in Htruthy; discriminate.
  - intros servers prev key Hsome. rewrite updateMetricsHistory_lookup.
    destruct (samplesFor key servers); [exact Hsome | eauto].
Qed.

Lemma two_appends_latest (t1 t2 : Z) (s1 s2 : Entity.Server)
    (prev : gmap string (list Sample)) :
  Js.prop_key (Entity.name s1) = Js.prop_key (Entity.name s2) ->
  exists older,
    appendSample t2 s2 (appendSample t1 s1 prev)
      !! Js.prop_key (Entity.name s2)
    = Some (older ++ [newEntry t1 s1; newEntry t2 s2]).
Proof.
  intros Hkey. unfold appendSample at 1. rewrite lookup_insert_eq.
  rewrite <- Hkey. unfold appendSample. rewrite lookup_insert_eq.
  cbn [from_option]. unfold Datatypes.id.
  rewrite <- (slice_last_snoc 18).
  eexists. rewrite <- app_assoc. reflexivity.
Qed.

(** X3. Two successive snapshots of the same named server, whose name is
    not the name of a member of [Object.prototype], give, for each stored
    metric, the trend "second value minus first value" (a missing value
    counts as 0), whatever the buffer held before; and the very first
    snapshot of a server gives trend 0. *)
Theorem trend_of_two_snapshots (nm : string) (s1 s2 : Entity.Server)
    (t1 t2 : Z) (prev : gmap string (list Sample)) :
  nm <> ""%string ->
  Js.inherited nm = None ->
  Entity.name s1 = Some nm ->
  Entity.name s2 = Some nm ->
  let after1 := updateMetricsHistory [(s1, t1)] prev in
  let after2 := updateMetricsHistory [(s2, t2)] after1 in
  calculateTrend after2 nm "cpu"
  = Js.Num (Js.or_zero (Entity.cpu_usage s2)
            - Js.or_zero (Entity.cpu_usage s1))
  /\ calculateTrend after2 nm "memory"
     = Js.Num (Js.or_zero (Entity.memory_usage s2)
               - Js.or_zero (Entity.memory_usage s1))
  /\ calculateTrend after2 nm "connections"
     = Js.Num (Js.or_zero (Entity.connections s2)
               - Js.or_zero (Entity.connections s1))
  /\ (prev !! nm = None ->
      forall metric, calculateTrend after1 nm metric = Js.Num 0).
Proof.
  intros Hnm _ H1 H2 after1 after2.
  assert (Htruthy : Js.truthy_str (Some nm) = true).
  { cbn. now destruct (String.eqb_spec nm ""). }
  assert (Hafter1 : after1 = appendSample t1 s1 prev).
  { subst after1. cbn. now rewrite H1, Htruthy. }
  assert (Hafter2 : after2 = appendSample t2 s2 (appendSample t1 s1 prev)).
  { subst after2. rewrite Hafter1. cbn. now rewrite H2, Htruthy. }
  destruct (two_appends_latest t1 t2 s1 s2 prev) as [older Holder].
  { now rewrite H1, H2. }
  rewrite H2 in Holder. cbn [Js.prop_key from_option] in Holder.
  unfold Datatypes.id in Holder. rewrite <- Hafter2 in Holder.
  rewrite !(calculateTrend_recent _ _ _ _ _ _ Holder).
  repeat split.
  intros Hfresh metric. rewrite Hafter1. unfold calculateTrend, appendSample.
  rewrite H1. cbn [Js.prop_key from_option]. unfold Datatypes.id.
  now rewrite lookup_insert_eq, Hfresh.
Qed.

Lemma trend_of_two_snapshots_witness :
  let snapshot (load : Q) :=
    Entity.mkServer (Some "s1"%string) (Some load) None None None None None
      None None None None in
  calculateTrend
    (updateMetricsHistory [(snapshot 50%Q, 2)]
       (updateMetricsHistory [(snapshot 95%Q, 1)] ∅))
    "s1" "cpu" = Js.Num (-45).
Proof.
  intros snapshot.
  apply (trend_of_two_snapshots "s1" (snapshot 95%Q) (snapshot 50%Q) 1 2 ∅).
  - discriminate.
  - reflexivity.
  - reflexivity.
  - reflexivity.
Defined.

(** ** Uptime formatting *)

Lemma rem_nonneg (s c : Q) :
  (0 <= s)%Q -> (0 < c)%Q ->
  (Js.rem s c == s - c * inject_Z (Qfloor (s / c)))%Q.
Proof.
  intros Hs Hc. unfold Js.rem, Js.trunc.
  replace (Qle_bool 0 (s / c)) with true; [reflexivity|].
  symmetry. apply Qle_bool_iff. apply Qle_shift_div_l; [exact Hc|].
  now rewrite Qmult_0_l.
Qed.

Lemma rem_whole (n c : Z) :
  0 <= n -> 0 < c ->
  (Js.rem (inject_Z n) (inject_Z c) == inject_Z (n mod c))%Q.
Proof.
  intros Hn Hc.
  assert (HcQ : (0 < inject_Z c)%Q) by (rewrite <- (Zlt_Qlt 0); exact Hc).
  rewrite rem_nonneg; [|rewrite <- (Zle_Qle 0); exact Hn | exact HcQ].
  rewrite <- Zdiv_Qdiv, <- inject_Z_mult.
  unfold Qminus. rewrite <- inject_Z_opp, <- inject_Z_plus.
  rewrite (Z.mod_eq n c) by lia. reflexivity.
Qed.

(** X4. [formatUptime] prints ["N/A"] for a missing or zero uptime.  For a
    whole number [n] of seconds, positive and below [2^53], it prints the
    days [n / 86400] and the hours [n mod 86400 / 3600] when there is at
    least a day (dropping the minutes), the hours and the minutes
    [n mod 3600 / 60] when there is at least an hour, and the minutes
    otherwise; the hours are below 24, the minutes below 60, and together
    with the days they account for the seconds up to less than a minute. *)
Theorem formatUptime_parts :
  formatUptime None = "N/A"%string
  /\ (forall s, (s == 0)%Q -> formatUptime (Some s) = "N/A"%string)
  /\ (forall n,
        0 < n < 2 ^ 53 ->
        let days := n / 86400 in
        let hours := n mod 86400 / 3600 in
        let minutes := n mod 3600 / 60 in
        0 <= days /\ 0 <= hours < 24 /\ 0 <= minutes < 60
        /\ 86400 * days + 3600 * hours + 60 * minutes <= n
           < 86400 * days + 3600 * hours + 60 * minutes + 60
        /\ formatUptime (Some (inject_Z n))
           = if 0 <? days
             then pretty days +:+ "d " +:+ pretty hours +:+ "h"
             else if 0 <? hours
                  then pretty hours +:+ "h " +:+ pretty minutes +:+ "m"
                  else pretty minutes +:+ "m").
Proof.
  split; [reflexivity|]. split.
  - intros s Hs. unfold formatUptime.
    now apply Qeq_bool_iff in Hs as ->.
  - intros n [Hpos _] days hours minutes.
    assert (Hday : 86400 * (n / 86400) + n mod 86400 = n)
      by (symmetry; apply Z.div_mod; lia).
    assert (Hhour : 3600 * (n mod 86400 / 3600) + (n mod 86400) mod 3600
                    = n mod 86400)
      by (symmetry; apply Z.div_mod; lia).
    assert (Hsame : (n mod 86400) mod 3600 = n mod 3600).
    { apply (Z.mod_unique n 3600 (24 * (n / 86400) + n mod 86400 / 3600)).
      - left. apply Z.mod_pos_bound. lia.
      - lia. }
    assert (Hminute : 60 * (n mod 3600 / 60) + (n mod 3600) mod 60
                      = n mod 3600)
      by (symmetry; apply Z.div_mod; lia).
    pose proof (Z.mod_pos_bound n 86400 ltac:(lia)).
    pose proof (Z.mod_pos_bound n 3600 ltac:(lia)).
    pose proof (Z.mod_pos_bound (n mod 3600) 60 ltac:(lia)).
    assert (0 <= days) by (apply Z.div_pos; lia).
    assert (0 <= hours < 24).
    { split; [apply Z.div_pos; lia|]. apply Z.div_lt_upper_bound; lia. }
    assert (0 <= minutes < 60).
    { split; [apply Z.div_pos; lia|]. apply Z.div_lt_upper_bound; lia. }
    split; [assumption|]. split; [assumption|]. split; [assumption|].
    split; [subst days hours minutes; lia|].
    unfold formatUptime.
    replace (Qeq_bool (inject_Z n) 0) with false.
    2:{ symmetry. apply not_true_iff_false. intros Hzero.
        apply Qeq_bool_iff in Hzero. unfold Qeq in Hzero. cbn in Hzero.
        lia. }
    change 86400%Q with (inject_Z 86400). change 3600%Q with (inject_Z 3600).
    change 60%Q with (inject_Z 60).
    rewrite <- Zdiv_Qdiv.
    rewrite (Qfloor_comp _ _ (Qdiv_comp _ _ (rem_whole n 86400 ltac:(lia)
                                               ltac:(lia))
                                _ _ (Qeq_refl (inject_Z 3600)))).
    rewrite (Qfloor_comp _ _ (Qdiv_comp _ _ (rem_whole n 3600 ltac:(lia)
                                               ltac:(lia))
                                _ _ (Qeq_refl (inject_Z 60)))).
    rewrite <- !Zdiv_Qdiv. reflexivity.
Qed.

(** 90061 seconds are one day, one hour, one minute and one second. *)
Lemma formatUptime_parts_witness :
  formatUptime (Some (inject_Z 90061)) = "1d 1h"%string.
Proof.
  destruct (proj2 (proj2 formatUptime_parts) 90061 ltac:(lia))
    as (_ & _ & _ & _ & Hprinted).
  exact Hprinted.
Defined.

(** X5. The colour of a server's status indicator is one of the three
    status colours, a different one for each status, and never the grey
    fallback of [getStatusColor]; it is the red one exactly when the server
    reports [healthy: false]. *)
Theorem status_colour :
  (forall s,
      getStatusColor (statusName (getServerStatus s)) <> "#9ca3af"%string)
  /\ (forall s s',
        getStatusColor (statusName (getServerStatus s))
        = getStatusColor (statusName (getServerStatus s')) ->
        getServerStatus s = getServerStatus s')
  /\ (forall s,
        getStatusColor (statusName (getServerStatus s)) = "#f87171"%string
        <-> Entity.healthy s = Some false).
Proof.
  split; [|split].
  - intros s. now destruct (getServerStatus s).
  - intros s s'. now destruct (getServerStatus s), (getServerStatus s').
  - intros s. unfold getServerStatus.
    destruct (bool_decide_reflect (Entity.healthy s = Some false)) as [Hu | Hu].
    + now split.
    + split; [|contradiction].
      now destruct (Js.gt _ 80 || Js.gt _ 85).
Qed.

(** ** Push messages and polls of [App] *)

Lemma receive_log (messages : list Message) :
  forall st,
  trafficData (receive messages st)
  = match trafficPayloads messages with
    | [] => trafficData st
    | _ :: _ =>
        Js.slice_last 51 (trafficData st ++ trafficPayloads messages)
    end.
Proof.
  unfold receive.
  induction messages as [|data rest IH]; intros st; [reflexivity|].
  cbn [fold_left]. rewrite IH.
  destruct data as [payload | payload | type]; try reflexivity.
  change (trafficPayloads (traffic_update payload :: rest))
    with (payload :: trafficPayloads rest).
  change (trafficData (onmessage (traffic_update payload) st))
    with (Js.slice_last 50 (trafficData st) ++ [payload]).
  rewrite slice_last_snoc.
  destruct (trafficPayloads rest) as [|next more]; [reflexivity|].
  rewrite slice_last_absorb. now rewrite <- app_assoc.
Qed.

(** X6. The traffic log is a sliding window over the [traffic_update]
    payloads: after any sequence of push messages it holds the last 51 of
    what it held before followed by the payloads received, in arrival
    order; messages of other types leave it alone. *)
Theorem traffic_log_window :
  (forall messages st,
      trafficPayloads messages <> [] ->
      trafficData (receive messages st)
      = Js.slice_last 51 (trafficData st ++ trafficPayloads messages))
  /\ (forall messages st,
        trafficPayloads messages = [] ->
        trafficData (receive messages st) = trafficData st)
  /\ (forall messages st payload,
        trafficData (receive (messages ++ [traffic_update payload]) st)
        = Js.slice_last 50 (trafficData (receive messages st)) ++ [payload]).
Proof.
  split; [|split].
  - intros messages st Hne. rewrite receive_log.
    now destruct (trafficPayloads messages).
  - intros messages st Hnone. now rewrite receive_log, Hnone.
  - intros messages st payload. unfold receive.
    now rewrite fold_left_app.
Qed.

Lemma receive_frame (messages : list Message) :
  forall st,
  App.servers (receive messages st) = App.servers st
  /\ algorithm (receive messages st) = algorithm st
  /\ isSimulating (receive messages st) = isSimulating st
  /\ stats (receive messages st)
     = match lastStatsUpdate messages with
       | Some payload => Some payload
       | None => stats st
       end.
Proof.
  unfold receive.
  induction messages as [|data rest IH]; intros st; [easy|].
  cbn [fold_left]. destruct (IH (onmessage data st)) as (Hs & Ha & Hi & Hst).
  rewrite Hs, Ha, Hi, Hst. unfold lastStatsUpdate.
  destruct data as [payload | payload | type]; cbn -[last]; try easy.
  repeat split. rewrite last_cons. now destruct (last _).
Qed.

(** X7. Push messages never change the server list, the algorithm label or
    the simulation flag, and the stats shown after a sequence of them are
    the payload of the last [stats_update], or the earlier stats when there
    was none; so a [stats_update] does not refresh the server list, even
    when its payload carries one. *)
Theorem push_messages_frame :
  (forall messages st,
      App.servers (receive messages st) = App.servers st
      /\ algorithm (receive messages st) = algorithm st
      /\ isSimulating (receive messages st) = isSimulating st)
  /\ (forall messages st payload,
        lastStatsUpdate messages = Some payload ->
        stats (receive messages st) = Some payload)
  /\ (forall messages st,
        lastStatsUpdate messages = None ->
        stats (receive messages st) = stats st).
Proof.
  split; [|split].
  - intros messages st. destruct (receive_frame messages st) as (? & ? & ? & _).
    auto.
  - intros messages st payload Hlast.
    destruct (receive_frame messages st) as (_ & _ & _ & ->).
    now rewrite Hlast.
  - intros messages st Hlast.
    destruct (receive_frame messages st) as (_ & _ & _ & ->).
    now rewrite Hlast.
Qed.

(** X8. How the poll and the push channel combine: a poll that fails keeps
    every field; a poll that succeeds after any pushes decides both the
    stats and the server list (an empty list when the response has none);
    pushes that follow a successful poll keep the poll's server list while
    the stats become those of the last [stats_update]; and no poll touches
    the traffic log, the algorithm label or the simulation flag. *)
Theorem poll_and_push :
  (forall st, fetchStats None st = st /\ fetchServers None st = st)
  /\ (forall messages body st,
        let st' := fetchStats (Some body) (receive messages st) in
        stats st' = Some body
        /\ App.servers st' = default [] (server_stats body))
  /\ (forall messages body st,
        let st' := receive messages (fetchStats (Some body) st) in
        App.servers st' = default [] (server_stats body)
        /\ stats st' = Some (default body (lastStatsUpdate messages)))
  /\ (forall response st,
        trafficData (fetchStats response st) = trafficData st
        /\ algorithm (fetchStats response st) = algorithm st
        /\ isSimulating (fetchStats response st) = isSimulating st)
  /\ (forall response st,
        trafficData (fetchServers response st) = trafficData st
        /\ algorithm (fetchServers response st) = algorithm st
        /\ isSimulating (fetchServers response st) = isSimulating st
        /\ stats (fetchServers response st) = stats st).
Proof.
  split; [easy|]. split; [easy|]. split; [|split].
  - intros messages body st st'. subst st'.
    destruct (receive_frame messages (fetchStats (Some body) st))
      as (-> & _ & _ & ->).
    split; [reflexivity|]. now destruct (lastStatsUpdate messages).
  - intros [body|] st; easy.
  - intros [data|] st; easy.
Qed.

Lemma sendTestRequest_frame (ok : bool) (refresh : option Stats) (st : State) :
  algorithm (sendTestRequest ok refresh st) = algorithm st
  /\ trafficData (sendTestRequest ok refresh st) = trafficData st
  /\ isSimulating (sendTestRequest ok refresh st) = isSimulating st.
Proof. destruct ok, refresh; easy. Qed.

Lemma simulationRounds_frame (outcome : nat -> bool * option Stats) (n : nat) :
  forall i st,
  algorithm (simulationRounds outcome n i st) = algorithm st
  /\ trafficData (simulationRounds outcome n i st) = trafficData st
  /\ isSimulating (simulationRounds outcome n i st) = isSimulating st.
Proof.
  induction n as [|n IH]; intros i st; [easy|]. cbn [simulationRounds].
  destruct (IH (S i) (sendTestRequest (fst (outcome i)) (snd (outcome i)) st))
    as (-> & -> & ->).
  apply sendTestRequest_frame.
Qed.

Lemma simulationRounds_all_fail (outcome : nat -> bool * option Stats)
    (n : nat) :
  forall i st,
  (forall j, (i <= j < i + n)%nat -> roundFails outcome j) ->
  simulationRounds outcome n i st = st.
Proof.
  induction n as [|n IH]; intros i st Hfail; [reflexivity|].
  cbn [simulationRounds].
  assert (Hstep : sendTestRequest (fst (outcome i)) (snd (outcome i)) st = st).
  { destruct (Hfail i ltac:(lia)) as [-> | Hr]; [reflexivity|].
    rewrite Hr. now destruct (fst (outcome i)). }
  rewrite Hstep. apply IH. intros j Hj. apply Hfail. lia.
Qed.

Lemma simulationRounds_last (outcome : nat -> bool * option Stats) (n : nat) :
  forall i st k body,
  (i <= k < i + n)%nat ->
  outcome k = (true, Some body) ->
  (forall j, (k < j < i + n)%nat -> roundFails outcome j) ->
  stats (simulationRounds outcome n i st) = Some body
  /\ App.servers (simulationRounds outcome n i st)
     = default [] (server_stats body).
Proof.
  induction n as [|n IH]; intros i st k body Hk Hok Hlater; [lia|].
  cbn [simulationRounds].
  destruct (decide (k = i)) as [-> | Hne].
  - rewrite Hok. cbn [fst snd sendTestRequest].
    rewrite simulationRounds_all_fail; [easy|].
    intros j Hj. apply Hlater. lia.
  - apply (IH (S i) _ k body); [lia | exact Hok|].
    intros j Hj. apply Hlater. lia.
Qed.

(** X9. A traffic simulation of ten test requests ends with the simulation
    flag off and leaves the algorithm label and the traffic log as they
    were.  The stats and the server list it leaves are those of the last
    round whose request and refresh both succeeded, and the earlier ones
    when no round did. *)
Theorem simulation_effect (outcome : nat -> bool * option Stats) (st : State) :
  let st' := startTrafficSimulation outcome st in
  isSimulating st' = false
  /\ algorithm st' = algorithm st
  /\ trafficData st' = trafficData st
  /\ ((forall j, (j < 10)%nat -> roundFails outcome j) ->
      stats st' = stats st /\ App.servers st' = App.servers st)
  /\ (forall k body,
        (k < 10)%nat ->
        outcome k = (true, Some body) ->
        (forall j, (k < j < 10)%nat -> roundFails outcome j) ->
        stats st' = Some body
        /\ App.servers st' = default [] (server_stats body)).
Proof.
  intros st'. subst st'. unfold startTrafficSimulation.
  destruct (simulationRounds_frame outcome 10 0 (setIsSimulating true st))
    as (Ha & Ht & _).
  split; [reflexivity|]. split; [exact Ha|]. split; [exact Ht|]. split.
  - intros Hfail. rewrite simulationRounds_all_fail; [easy|].
    intros j Hj. apply Hfail. lia.
  - intros k body Hk Hok Hlater.
    apply (simulationRounds_last outcome 10 0 (setIsSimulating true st) k body);
      [lia | exact Hok|].
    intros j Hj. apply Hlater. lia.
Qed.

Lemma activeConnections_nan (ss : list Entity.Server) :
  fold_left
    (fun sum s => Js.plus sum (Js.to_number (Entity.connections s)))
    ss Js.NaN = Js.NaN.
Proof. induction ss as [|s rest IH]; [reflexivity | exact IH]. Qed.

Lemma activeConnections_sum (ss : list Entity.Server) :
  forall acc : Q,
  Forall (fun s => is_Some (Entity.connections s)) ss ->
  fold_left
    (fun sum s => Js.plus sum (Js.to_number (Entity.connections s)))
    ss (Js.Num acc)
  = Js.Num (fold_left
              (fun sum s => (sum + Js.or_zero (Entity.connections s))%Q)
              ss acc).
Proof.
  induction ss as [|s rest IH]; intros acc Hall; [reflexivity|].
  apply Forall_cons in Hall as [[c Hc] Hall]. cbn [fold_left].
  rewrite Hc. cbn [Js.to_number Js.plus Js.or_zero]. now apply IH.
Qed.

(** X10. The "Active Connections" metric is the sum of the servers'
    [connections] when every server has one (0 for no servers), and it is
    [NaN] as soon as one server lacks the property. *)
Theorem activeConnections_total_or_nan :
  (forall ss,
      Forall (fun s => is_Some (Entity.connections s)) ss ->
      activeConnections ss
      = Js.Num (fold_left
                  (fun sum s => (sum + Js.or_zero (Entity.connections s))%Q)
                  ss 0%Q))
  /\ (forall ss,
        Exists (fun s => Entity.connections s = None) ss ->
        activeConnections ss = Js.NaN).
Proof.
  split.
  - intros ss Hall. now apply activeConnections_sum.
  - intros ss Hmissing. unfold activeConnections.
    generalize (Js.Num 0). induction Hmissing as [s rest Hs | s rest _ IH];
      intros acc; cbn [fold_left].
    + rewrite Hs. destruct acc; apply activeConnections_nan.
    + apply IH.
Qed.

(** ** The performance series of [LoadBalancerStats] *)

Lemma metricsAfter_series (ticks : list (Q * Q * Q)) :
  LoadBalancerStats.requestsPerSecond (LoadBalancerStats.metricsAfter ticks)
  = Js.slice_last 30 (map LoadBalancerStats.rpsOf ticks)
  /\ LoadBalancerStats.responseTimes (LoadBalancerStats.metricsAfter ticks)
     = Js.slice_last 30 (map LoadBalancerStats.responseTimeOf ticks)
  /\ LoadBalancerStats.errorRates (LoadBalancerStats.metricsAfter ticks)
     = Js.slice_last 30 (map LoadBalancerStats.errorRateOf ticks).
Proof.
  unfold LoadBalancerStats.metricsAfter.
  induction ticks as [|draws ticks (IH1 & IH2 & IH3)] using rev_ind; [easy|].
  rewrite fold_left_app. cbn [fold_left].
  set (prev := fold_left _ ticks _) in *.
  unfold LoadBalancerStats.onMetricsTick.
  cbn [LoadBalancerStats.requestsPerSecond LoadBalancerStats.responseTimes
       LoadBalancerStats.errorRates].
  rewrite IH1, IH2, IH3, !map_app. cbn [map].
  now rewrite !(slice_last_snoc 29), !slice_last_absorb.
Qed.

Lemma slice_last_elem {A : Type} (n : nat) (xs : list A) (x : A) :
  x ∈ Js.slice_last n xs -> x ∈ xs.
Proof.
  unfold Js.slice_last. apply subseteq_drop.
Qed.

Lemma rpsOf_range (draws : Q * Q * Q) :
  LoadBalancerStats.unitDraws draws ->
  exists k, LoadBalancerStats.rpsOf draws = inject_Z k /\ 20 <= k <= 69.
Proof.
  intros ((Hlo & Hhi) & _). unfold LoadBalancerStats.rpsOf.
  eexists. split; [reflexivity|].
  set (r := fst (fst draws)) in *.
  assert (H0 : Qfloor 0 <= Qfloor (r * 50)).
  { apply Qfloor_resp_le. Lqa.lra. }
  assert (H50 : (inject_Z (Qfloor (r * 50)) < inject_Z 50)%Q).
  { eapply Qle_lt_trans; [apply Qfloor_le|].
    change (inject_Z 50) with 50%Q. Lqa.lra. }
  rewrite <- Zlt_Qlt in H50. change (Qfloor 0) with 0 in H0. lia.
Qed.

(** X11. The three performance series are sliding windows of 30: after
    any number of ticks each holds the values of the last 30 ticks in
    order, so the three always have the same length, at most 30; with
    draws between 0 and 1 every request rate is a whole number from 20 to
    69, every response time is from 50 to 100, and every error rate from 0
    up to but not including 2. *)
Theorem performance_series_window (ticks : list (Q * Q * Q)) :
  let metrics := LoadBalancerStats.metricsAfter ticks in
  LoadBalancerStats.requestsPerSecond metrics
  = Js.slice_last 30 (map LoadBalancerStats.rpsOf ticks)
  /\ LoadBalancerStats.responseTimes metrics
     = Js.slice_last 30 (map LoadBalancerStats.responseTimeOf ticks)
  /\ LoadBalancerStats.errorRates metrics
     = Js.slice_last 30 (map LoadBalancerStats.errorRateOf ticks)
  /\ length (LoadBalancerStats.requestsPerSecond metrics)
     = Nat.min 30 (length ticks)
  /\ length (LoadBalancerStats.responseTimes metrics)
     = Nat.min 30 (length ticks)
  /\ length (LoadBalancerStats.errorRates metrics)
     = Nat.min 30 (length ticks)
  /\ (Forall LoadBalancerStats.unitDraws ticks ->
      (forall v, v ∈ LoadBalancerStats.requestsPerSecond metrics ->
                 exists k, v = inject_Z k /\ 20 <= k <= 69)
      /\ (forall v, v ∈ LoadBalancerStats.responseTimes metrics ->
                    (50 <= v <= 100)%Q)
      /\ (forall v, v ∈ LoadBalancerStats.errorRates metrics ->
                    (0 <= v < 2)%Q)).
Proof.
  intros metrics. subst metrics.
  destruct (metricsAfter_series ticks) as (-> & -> & ->).
  rewrite !length_slice_last, !length_map.
  do 6 (split; [reflexivity|]).
  intros Hunit. rewrite Forall_forall in Hunit.
  split; [|split]; intros v Hv;
    apply slice_last_elem, list_elem_of_fmap in Hv as (draws & -> & Hdraws);
    apply Hunit in Hdraws.
  - now apply rpsOf_range.
  - destruct Hdraws as (_ & (Hlo & Hhi) & _).
    unfold LoadBalancerStats.responseTimeOf. split; Lqa.lra.
  - destruct Hdraws as (_ & _ & (Hlo & Hhi)).
    unfold LoadBalancerStats.errorRateOf. split; Lqa.lra.
Qed.

(** ** Bar charts *)

Lemma fold_max_first (rest : list Q) :
  forall first, (first <= fold_left Qmax rest first)%Q.
Proof.
  induction rest as [|v rest IH]; intros first; [apply Qle_refl|].
  cbn [fold_left]. eapply Qle_trans; [apply Q.le_max_l | apply IH].
Qed.

Lemma fold_max_upper (rest : list Q) :
  forall first v, v ∈ rest -> (v <= fold_left Qmax rest first)%Q.
Proof.
  induction rest as [|w rest IH]; intros first v Hv;
    [now apply elem_of_nil in Hv|].
  cbn [fold_left]. apply elem_of_cons in Hv as [-> | Hv].
  - eapply Qle_trans; [apply Q.le_max_r | apply fold_max_first].
  - now apply IH.
Qed.

Lemma fold_max_attained (rest : list Q) :
  forall first,
  exists v, v ∈ first :: rest /\ (fold_left Qmax rest first == v)%Q.
Proof.
  induction rest as [|w rest IH]; intros first.
  - exists first. split; [left | reflexivity].
  - cbn [fold_left]. destruct (IH (Qmax first w)) as (v & Hv & Heq).
    apply elem_of_cons in Hv as [-> | Hv].
    + destruct (Q.max_dec first w) as [Hm | Hm].
      * exists first. split; [left | now rewrite Heq].
      * exists w. split; [right; left | now rewrite Heq].
    + exists v. split; [right; right; exact Hv | exact Heq].
Qed.

Lemma max_list_spec (data : list Q) (maxValue : Q) :
  Js.max_list data = Some maxValue ->
  (forall v, v ∈ data -> (v <= maxValue)%Q)
  /\ exists v, v ∈ data /\ (maxValue == v)%Q.
Proof.
  destruct data as [|first rest]; [discriminate|]. intros [= <-]. split.
  - intros v Hv. apply elem_of_cons in Hv as [-> | Hv].
    + apply fold_max_first.
    + now apply fold_max_upper.
  - apply fold_max_attained.
Qed.

Lemma ratio_unit (v m : Q) :
  (0 < m)%Q -> (0 <= v)%Q -> (v <= m)%Q ->
  (0 <= v / m * 60)%Q /\ (v / m * 60 <= 60)%Q.
Proof.
  intros Hm Hv Hle.
  assert (Hlo : (0 <= v / m)%Q).
  { apply Qle_shift_div_l; [exact Hm|]. now rewrite Qmult_0_l. }
  assert (Hhi : (v / m <= 1)%Q).
  { apply Qle_shift_div_r; [exact Hm|]. now rewrite Qmult_1_l. }
  set (q := (v / m)%Q) in *. split; Lqa.lra.
Qed.

(** X12. [renderPerformanceChart] draws nothing for empty data.  For
    non-empty data without negative values it draws one bar per value;
    every bar is between 0 and 60 pixels high, the widths of the bars add
    up to 100 percent, every opacity is from 0.7 up to but not including 1,
    and when some value is positive a largest value gets the full 60
    pixels. *)
Theorem chart_bars (data : list Q) :
  data <> [] ->
  Forall (fun v => (0 <= v)%Q) data ->
  LoadBalancerStats.renderPerformanceChart [] = None
  /\ exists bars,
       LoadBalancerStats.renderPerformanceChart data = Some bars
       /\ length bars = length data
       /\ (forall bar,
             bar ∈ bars ->
             (0 <= LoadBalancerStats.bar_height bar <= 60)%Q
             /\ (LoadBalancerStats.bar_width bar
                 * inject_Z (Z.of_nat (length data)) == 100)%Q
             /\ ((7 # 10) <= LoadBalancerStats.bar_opacity bar < 1)%Q)
       /\ (Exists (fun v => (0 < v)%Q) data ->
           exists bar,
             bar ∈ bars /\ (LoadBalancerStats.bar_height bar == 60)%Q).
Proof.
  intros Hne Hpos. split; [reflexivity|].
  unfold LoadBalancerStats.renderPerformanceChart.
  assert (Hlen : (0 < length data)%nat).
  { destruct data; [congruence | cbn; lia]. }
  replace (length data =? 0)%nat with false
    by (symmetry; apply Nat.eqb_neq; lia).
  destruct (Js.max_list data) as [maxValue|] eqn:Hmax;
    [|destruct data; [congruence | discriminate]].
  destruct (max_list_spec data maxValue Hmax) as [Hupper (top & Htop & Heq)].
  assert (Hn : (0 < inject_Z (Z.of_nat (length data)))%Q).
  { rewrite <- (Zlt_Qlt 0). lia. }
  eexists. split; [reflexivity|]. split; [apply length_imap|]. split.
  - intros bar Hbar.
    apply elem_of_lookup_imap in Hbar as (index & value & -> & Hvalue).
    cbn [LoadBalancerStats.bar_height LoadBalancerStats.bar_width
         LoadBalancerStats.bar_opacity].
    assert (Hin : value ∈ data) by (eapply list_elem_of_lookup_2; eauto).
    assert (Hv : (0 <= value)%Q).
    { rewrite Forall_forall in Hpos. now apply Hpos. }
    split; [|split].
    + destruct (Qle_bool maxValue 0) eqn:Hm; cbn [negb].
      * split; [apply Qle_refl | discriminate].
      * apply ratio_unit; [|exact Hv | now apply Hupper].
        apply Qnot_le_lt. intros Hle. apply Qle_bool_iff in Hle. congruence.
    + field. intros E. rewrite E in Hn. discriminate.
    + apply lookup_lt_Some in Hvalue.
      assert (Hi0 : (0 <= inject_Z (Z.of_nat index))%Q).
      { rewrite <- (Zle_Qle 0). lia. }
      assert (Hi1 : (inject_Z (Z.of_nat index)
                     < inject_Z (Z.of_nat (length data)))%Q).
      { rewrite <- Zlt_Qlt. lia. }
      assert (Hlo : (0 <= inject_Z (Z.of_nat index)
                          / inject_Z (Z.of_nat (length data)))%Q).
      { apply Qle_shift_div_l; [exact Hn|]. now rewrite Qmult_0_l. }
      assert (Hhi : (inject_Z (Z.of_nat index)
                     / inject_Z (Z.of_nat (length data)) < 1)%Q).
      { apply Qlt_shift_div_r; [exact Hn|]. now rewrite Qmult_1_l. }
      set (q := (inject_Z (Z.of_nat index)
                 / inject_Z (Z.of_nat (length data)))%Q) in *.
      split; Lqa.lra.
  - intros Hsome. apply Exists_exists in Hsome as (v & Hv & Hvpos).
    assert (Hm : (0 < maxValue)%Q).
    { eapply Qlt_le_trans; [exact Hvpos | now apply Hupper]. }
    apply list_elem_of_lookup_1 in Htop as [index Hindex].
    eexists. split.
    + apply elem_of_lookup_imap. exists index, top. split; [reflexivity|].
      exact Hindex.
    + cbn [LoadBalancerStats.bar_height].
      replace (Qle_bool maxValue 0) with false.
      * cbn [negb]. rewrite <- Heq. field.
        intros E. rewrite E in Hm. discriminate.
      * symmetry. apply not_true_iff_false. intros Hle.
        apply Qle_bool_iff in Hle. now apply Qlt_not_le in Hm.
Qed.

Lemma chart_bars_witness :
  exists bars,
    LoadBalancerStats.renderPerformanceChart [30; 60; 15]%Q = Some bars
    /\ length bars = 3%nat.
Proof.
  destruct (chart_bars [30; 60; 15]%Q) as (_ & bars & Hbars & Hlen & _).
  - discriminate.
  - repeat constructor; discriminate.
  - exists bars. split; [exact Hbars | exact Hlen].
Defined.

(** ** The algorithm history *)

(** X13. Recording an algorithm change keeps the last 10 entries of the
    history, the new one last.  The request rate shown afterwards compares
    the new entry with the entry that was the latest before it, however
    long the history was: with [timeDiff] the seconds from that entry to
    the new one, it is [Math.round] of the requests per second since that
    entry when [timeDiff > 0] and 0 when not; it is 0 when the new entry is
    the first. *)
Theorem rate_after_algorithm_change :
  (forall now algo healthy_servers total_requests prev,
      LoadBalancerStats.recordAlgorithm now algo healthy_servers
        total_requests prev
      = Js.slice_last 10
          (prev ++ [LoadBalancerStats.mkEntry algo now
                      (F64.or_zero healthy_servers)
                      (F64.or_zero total_requests)]))
  /\ (forall r1 r2 r3 now algo healthy_servers total_requests,
        LoadBalancerStats.requestRate
          (LoadBalancerStats.calculateAlgorithmPerformance r1 r2 r3
             (LoadBalancerStats.recordAlgorithm now algo healthy_servers
                total_requests [])) = 0%float)
  /\ (forall r1 r2 r3 now algo healthy_servers total_requests older previous,
        let timeDiff :=
          ((now - LoadBalancerStats.timestamp previous) / 1000)%float in
        LoadBalancerStats.requestRate
          (LoadBalancerStats.calculateAlgorithmPerformance r1 r2 r3
             (LoadBalancerStats.recordAlgorithm now algo healthy_servers
                total_requests (older ++ [previous])))
        = if (0 <? timeDiff)%float
          then F64.round
                 ((F64.or_zero total_requests
                   - LoadBalancerStats.totalRequests previous) / timeDiff)
          else 0%float)
  /\ (forall r1 r2 r3 algo,
        LoadBalancerStats.requestRate
          (LoadBalancerStats.calculateAlgorithmPerformance r1 r2 r3
             (LoadBalancerStats.recordAlgorithm 1272 algo (Some 3%float)
                (Some 117%float)
                (LoadBalancerStats.recordAlgorithm 1000 algo (Some 3%float)
                   (Some 100%float) []))) = 62%float).
Proof.
  split; [|split; [|split]].
  - intros. unfold LoadBalancerStats.recordAlgorithm. apply slice_last_snoc.
  - reflexivity.
  - intros r1 r2 r3 now algo healthy_servers total_requests older previous
      timeDiff.
    subst timeDiff. unfold LoadBalancerStats.recordAlgorithm.
    rewrite <- (slice_last_snoc 8), <- app_assoc. cbn [app].
    now rewrite performance_latest.
  - reflexivity.
Qed.

(** ** The log of [TrafficFlow] *)

Lemma slice_last_snoc_nonempty {A : Type} (n : nat) (xs : list A) (x : A) :
  Js.slice_last (S n) (xs ++ [x]) <> [].
Proof.
  rewrite <- slice_last_snoc. intros Hnil.
  apply (f_equal (@length A)) in Hnil. rewrite length_app in Hnil.
  cbn in Hnil. lia.
Qed.

Lemma trafficflow_exec_bound (e : TrafficFlow.Event)
    (prev next : list TrafficFlow.Entry) :
  TrafficFlow.exec e prev = Some next ->
  (length prev <= 100)%nat -> (length next <= 100)%nat.
Proof.
  destruct e as [now data | now r1 r2 r3 r4]; cbn.
  - intros [= <-] Hprev. unfold TrafficFlow.onData.
    destruct (0 <? length data)%nat; [|exact Hprev].
    destruct (data !! _); [|exact Hprev].
    rewrite length_slice_last. lia.
  - destruct (length prev =? 0)%nat; [|discriminate]. intros [= <-] _.
    unfold TrafficFlow.onMockTick. rewrite length_slice_last. lia.
Qed.

Lemma trafficflow_exec_nonempty (e : TrafficFlow.Event)
    (prev next : list TrafficFlow.Entry) :
  TrafficFlow.exec e prev = Some next ->
  prev <> [] ->
  next <> [] /\ TrafficFlow.mockTicks [e] = 0%nat.
Proof.
  destruct e as [now data | now r1 r2 r3 r4]; cbn.
  - intros [= <-] Hprev. split; [|reflexivity]. unfold TrafficFlow.onData.
    destruct (0 <? length data)%nat; [|exact Hprev].
    destruct (data !! _); [|exact Hprev].
    apply (slice_last_snoc_nonempty 99).
  - destruct prev; [congruence | discriminate].
Qed.

Lemma trafficflow_run_nonempty (events : list TrafficFlow.Event) :
  forall prev log,
  TrafficFlow.run events prev = Some log ->
  prev <> [] ->
  log <> [] /\ TrafficFlow.mockTicks events = 0%nat.
Proof.
  induction events as [|e rest IH]; intros prev log Hrun Hprev; cbn in Hrun.
  - injection Hrun as <-. now split.
  - destruct (TrafficFlow.exec e prev) as [next|] eqn:Hexec; [|discriminate].
    destruct (trafficflow_exec_nonempty e prev next Hexec Hprev)
      as [Hnext Hone].
    destruct (IH next log Hrun Hnext) as [Hlog Hrest].
    split; [exact Hlog|].
    unfold TrafficFlow.mockTicks in *. cbn [List.filter] in *.
    destruct e; cbn in *; [exact Hrest | discriminate].
Qed.

Lemma trafficflow_run_split (before : list TrafficFlow.Event) :
  forall after prev log,
  TrafficFlow.run (before ++ after) prev = Some log ->
  exists mid,
    TrafficFlow.run before prev = Some mid
    /\ TrafficFlow.run after mid = Some log.
Proof.
  induction before as [|e rest IH]; intros after prev log Hrun; cbn in *.
  - eauto.
  - destruct (TrafficFlow.exec e prev); [|discriminate]. now apply IH.
Qed.

(** X14. The log of [TrafficFlow] never holds more than 100 entries.  The
    simulation interval can run only while the log is empty and its first
    run fills it, so in everything that can happen to the component it
    runs at most once, and only before any entry was taken in. *)
Theorem trafficflow_log_and_simulation (events : list TrafficFlow.Event)
    (log : list TrafficFlow.Entry) :
  TrafficFlow.run events [] = Some log ->
  (length log <= 100)%nat
  /\ (TrafficFlow.mockTicks events <= 1)%nat
  /\ (forall before now r1 r2 r3 r4 after,
        events = before ++ TrafficFlow.MockTick now r1 r2 r3 r4 :: after ->
        TrafficFlow.run before [] = Some []
        /\ TrafficFlow.mockTicks after = 0%nat).
Proof.
  intros Hrun. split; [|split].
  - assert (Hbound : forall evs prev out,
               TrafficFlow.run evs prev = Some out ->
               (length prev <= 100)%nat -> (length out <= 100)%nat).
    { induction evs as [|e rest IH]; intros prev out Hr Hprev; cbn in Hr.
      - now injection Hr as <-.
      - destruct (TrafficFlow.exec e prev) as [next|] eqn:Hexec;
          [|discriminate].
        eapply IH; [exact Hr|]. eapply trafficflow_exec_bound; eassumption. }
    apply (Hbound events [] log Hrun). cbn. lia.
  - revert Hrun. generalize log. clear log.
    induction events as [|e rest IH]; intros log Hrun; [cbn; lia|].
    cbn in Hrun.
    destruct (TrafficFlow.exec e []) as [next|] eqn:Hexec; [|discriminate].
    destruct next as [|entry next].
    + specialize (IH log Hrun). destruct e; cbn in Hexec |- *.
      * exact IH.
      * discriminate.
    + destruct (trafficflow_run_nonempty rest (entry :: next) log Hrun)
        as [_ Hrest]; [discriminate|].
      unfold TrafficFlow.mockTicks in *. cbn [List.filter].
      destruct e; cbn [length]; lia.
  - intros before now r1 r2 r3 r4 after ->.
    apply trafficflow_run_split in Hrun as (mid & Hbefore & Hafter).
    cbn in Hafter. destruct mid as [|entry mid]; [|discriminate].
    split; [exact Hbefore|]. cbn in Hafter.
    eapply trafficflow_run_nonempty; [exact Hafter | discriminate].
Qed.

Lemma trafficflow_log_and_simulation_witness :
  (TrafficFlow.mockTicks
     [TrafficFlow.Data 0 []; TrafficFlow.MockTick 1000 0 0 0 0;
      TrafficFlow.Data 1200 [App.mkTraffic (Some 5%Q) None None None]]
   <= 1)%nat.
Proof.
  eapply (trafficflow_log_and_simulation
            [TrafficFlow.Data 0 []; TrafficFlow.MockTick 1000 0 0 0 0;
             TrafficFlow.Data 1200 [App.mkTraffic (Some 5%Q) None None None]]).
  vm_compute. reflexivity.
Defined.

(** ** The summary of [TrafficFlow] *)

Lemma inject_length_cons {A : Type} (x : A) (xs : list A) :
  (inject_Z (Z.of_nat (length (x :: xs)))
   == inject_Z (Z.of_nat (length xs)) + 1)%Q.
Proof.
  cbn [length]. rewrite Nat2Z.inj_succ, <- Z.add_1_r, inject_Z_plus.
  reflexivity.
Qed.

Lemma sum_from_const (c : Q) (xs : list Q) :
  (forall v, v ∈ xs -> (v == c)%Q) ->
  forall acc,
  (fold_left Qplus xs acc == acc + c * inject_Z (Z.of_nat (length xs)))%Q.
Proof.
  induction xs as [|v xs IH]; intros Hall acc.
  - cbn [fold_left length]. change (inject_Z (Z.of_nat 0)) with 0%Q. Lqa.lra.
  - cbn [fold_left]. rewrite inject_length_cons.
    assert (Hv : (v == c)%Q) by (apply Hall; left).
    rewrite IH by (intros w Hw; apply Hall; now right).
    Lqa.lra.
Qed.

Lemma inject_length_pos {A : Type} (xs : list A) :
  xs <> [] -> (0 < inject_Z (Z.of_nat (length xs)))%Q.
Proof.
  intros Hne. rewrite <- (Zlt_Qlt 0). destruct xs; [congruence | cbn; lia].
Qed.

Lemma meanOr_nonempty (d : Q) (xs : list Q) :
  xs <> [] ->
  TrafficFlow.meanOr d xs = (Js.sum xs / inject_Z (Z.of_nat (length xs)))%Q.
Proof.
  intros Hne. unfold TrafficFlow.meanOr.
  destruct xs; [congruence | reflexivity].
Qed.

Lemma slice_last_nonempty {A : Type} (n : nat) (xs : list A) :
  xs <> [] -> Js.slice_last (S n) xs <> [].
Proof.
  intros Hne Hnil. apply (f_equal (@length A)) in Hnil.
  rewrite length_slice_last in Hnil. destruct xs; [congruence|].
  cbn in Hnil. lia.
Qed.

Lemma calculateStats_nonempty (trafficData : list TrafficFlow.Entry) :
  trafficData <> [] ->
  TrafficFlow.calculateStats trafficData
  = let recentData := Js.slice_last 30 trafficData in
    let requests :=
      map (fun d => Js.or_zero (TrafficFlow.requests d)) recentData in
    let responseTimes :=
      map (fun d => Js.or_zero (TrafficFlow.responseTime d)) recentData in
    let successRates :=
      map (fun d => Js.or_else (TrafficFlow.successRate d) 100) recentData in
    {| TrafficFlow.totalRequests := Js.sum requests;
       TrafficFlow.avgResponseTime := TrafficFlow.meanOr 0 responseTimes;
       TrafficFlow.summarySuccessRate := TrafficFlow.meanOr 100 successRates;
       TrafficFlow.throughput := TrafficFlow.meanOr 0 requests;
       TrafficFlow.peakRequests :=
         default 0%Q (Js.max_list (requests ++ [0%Q]));
       TrafficFlow.errorRate := 100 - TrafficFlow.meanOr 100 successRates |}.
Proof.
  intros Hne. unfold TrafficFlow.calculateStats.
  destruct trafficData; [congruence | reflexivity].
Qed.

(** X15. [calculateStats] looks only at the last 30 entries.  Over that
    window the error rate and the success rate add up to 100, the
    throughput times the number of entries is the total of the requests,
    and the peak is at least 0 and at least every entry's requests. *)
Theorem calculateStats_summary :
  (forall older recent,
      length recent = 30%nat ->
      TrafficFlow.calculateStats (older ++ recent)
      = TrafficFlow.calculateStats recent)
  /\ (forall trafficData,
        trafficData <> [] ->
        let summary := TrafficFlow.calculateStats trafficData in
        let window := Js.slice_last 30 trafficData in
        (TrafficFlow.errorRate summary
         + TrafficFlow.summarySuccessRate summary == 100)%Q
        /\ (TrafficFlow.throughput summary
            * inject_Z (Z.of_nat (length window))
            == TrafficFlow.totalRequests summary)%Q
        /\ (0 <= TrafficFlow.peakRequests summary)%Q
        /\ (forall d,
              d ∈ window ->
              (Js.or_zero (TrafficFlow.requests d)
               <= TrafficFlow.peakRequests summary)%Q)).
Proof.
  split.
  - intros older recent Hlen.
    assert (Hrecent : recent <> []) by (destruct recent; [discriminate | easy]).
    assert (Hall : older ++ recent <> []).
    { destruct older; [exact Hrecent | discriminate]. }
    rewrite !calculateStats_nonempty by assumption.
    rewrite slice_last_app by assumption.
    now rewrite slice_last_short by lia.
  - intros trafficData Hne summary window. subst summary.
    rewrite calculateStats_nonempty by assumption. fold window. cbv zeta.
    cbn [TrafficFlow.errorRate TrafficFlow.summarySuccessRate
         TrafficFlow.throughput TrafficFlow.totalRequests
         TrafficFlow.peakRequests].
    assert (Hwindow : window <> []) by now apply slice_last_nonempty.
    set (requests := map (fun d => Js.or_zero (TrafficFlow.requests d)) window).
    assert (Hrequests : requests <> []).
    { subst requests. destruct window; [congruence | discriminate]. }
    assert (Hn : (0 < inject_Z (Z.of_nat (length window)))%Q)
      by now apply inject_length_pos.
    assert (Hlen : length requests = length window) by apply length_map.
    destruct (Js.max_list (requests ++ [0%Q])) as [peak|] eqn:Hpeak;
      [|destruct requests; discriminate].
    destruct (max_list_spec _ _ Hpeak) as [Hupper _].
    cbn [from_option]. unfold Datatypes.id.
    assert (Hzero : (0 <= peak)%Q).
    { apply Hupper, elem_of_app. right. left. }
    split; [ring|]. split; [|split; [exact Hzero|]].
    + rewrite meanOr_nonempty by assumption. rewrite Hlen. field.
      intros E. rewrite E in Hn. discriminate.
    + intros d Hd. apply Hupper, elem_of_app. left.
      subst requests. apply list_elem_of_fmap. eauto.
Qed.

(** X16. [calculateStats] reads [successRate || 100], so an entry that
    reports a success rate of 0 counts like one that reports none: when
    every entry of the window reports 0 or nothing, the success rate shown
    is 100 and the error rate 0. *)
Theorem calculateStats_zero_success (trafficData : list TrafficFlow.Entry) :
  trafficData <> [] ->
  (forall d,
      d ∈ Js.slice_last 30 trafficData ->
      TrafficFlow.successRate d = None
      \/ exists q, TrafficFlow.successRate d = Some q /\ (q == 0)%Q) ->
  (TrafficFlow.summarySuccessRate (TrafficFlow.calculateStats trafficData)
   == 100)%Q
  /\ (TrafficFlow.errorRate (TrafficFlow.calculateStats trafficData) == 0)%Q.
Proof.
  intros Hne Hzero. rewrite calculateStats_nonempty by assumption. cbv zeta.
  cbn [TrafficFlow.errorRate TrafficFlow.summarySuccessRate].
  set (window := Js.slice_last 30 trafficData) in *.
  assert (Hwindow : window <> []) by now apply slice_last_nonempty.
  set (rates := map (fun d => Js.or_else (TrafficFlow.successRate d) 100)
                  window).
  assert (Hrates : rates <> []).
  { subst rates. destruct window; [congruence | discriminate]. }
  assert (Hn : (0 < inject_Z (Z.of_nat (length rates)))%Q)
    by now apply inject_length_pos.
  assert (Hmean : (TrafficFlow.meanOr 100 rates == 100)%Q).
  { rewrite meanOr_nonempty by assumption. unfold Js.sum.
    rewrite (sum_from_const 100).
    - field. intros E. rewrite E in Hn. discriminate.
    - intros v Hv. subst rates.
      apply list_elem_of_fmap in Hv as (d & -> & Hd).
      destruct (Hzero d Hd) as [-> | (q & -> & Hq)]; [reflexivity|].
      cbn. apply Qeq_bool_iff in Hq. now rewrite Hq. }
  rewrite Hmean. split; [reflexivity | ring].
Qed.

Lemma calculateStats_zero_success_witness :
  (TrafficFlow.summarySuccessRate
     (TrafficFlow.calculateStats
        [TrafficFlow.mkEntry 0 (Some 5%Q) None None (Some 0%Q)]) == 100)%Q.
Proof.
  apply (calculateStats_zero_success
           [TrafficFlow.mkEntry 0 (Some 5%Q) None None (Some 0%Q)]).
  - discriminate.
  - intros d Hd. vm_compute in Hd. apply list_elem_of_singleton in Hd as ->.
    right. exists 0%Q. split; reflexivity.
Defined.

(** ** The interceptors of the API client *)

(** X17. The request interceptor sets the [Authorization] header to
    ["Bearer "] followed by the stored token when a non-empty token is
    stored, and returns the headers as they are otherwise; it never touches
    another header.  The response interceptor changes the browser only on
    status 401, where it removes the token (and nothing else from the
    storage) and sends the browser to [/login]; so the requests that follow
    a 401 get no [Authorization] header from the interceptor. *)
Theorem api_interceptors :
  (forall store headers token,
      store !! "token"%string = Some token -> token <> ""%string ->
      Api.requestInterceptor store headers !! "Authorization"%string
      = Some ("Bearer " +:+ token)%string)
  /\ (forall store headers,
        store !! "token"%string = None
        \/ store !! "token"%string = Some ""%string ->
        Api.requestInterceptor store headers = headers)
  /\ (forall store headers name,
        name <> "Authorization"%string ->
        Api.requestInterceptor store headers !! name = headers !! name)
  /\ (forall error b,
        error <> Api.Responded 401 -> Api.responseError error b = b)
  /\ (forall b headers,
        let b' := Api.responseError (Api.Responded 401) b in
        Api.href b' = "/login"%string
        /\ (forall key, key <> "token"%string ->
                        Api.storage b' !! key = Api.storage b !! key)
        /\ Api.requestInterceptor (Api.storage b') headers = headers).
Proof.
  split; [|split; [|split; [|split]]].
  - intros store headers token Htoken Hne. unfold Api.requestInterceptor.
    rewrite Htoken.
    replace (String.eqb token "") with false
      by (symmetry; now apply String.eqb_neq).
    apply lookup_insert_eq.
  - intros store headers [Hnone | Hempty]; unfold Api.requestInterceptor.
    + now rewrite Hnone.
    + now rewrite Hempty.
  - intros store headers name Hname. unfold Api.requestInterceptor.
    destruct (store !! "token"%string) as [token|]; [|reflexivity].
    destruct (negb (String.eqb token "")); [|reflexivity].
    now rewrite lookup_insert_ne.
  - intros [status | |] b Hne; try reflexivity. cbn.
    destruct (Z.eqb_spec status 401) as [-> | _]; [congruence | reflexivity].
  - intros b headers b'. subst b'. cbn. split; [reflexivity|]. split.
    + intros key Hkey. now rewrite lookup_delete_ne.
    + unfold Api.requestInterceptor. now rewrite lookup_delete_eq.
Qed.

(** ** The nodes of the topology *)

Lemma forEach_place_dom (dimensions : Dimensions) (n : nat)
    (ss : list Entity.Server) :
  forall (index : nat) (positions : gmap string Node),
  dom (forEach (placeServer dimensions n) ss index positions)
  = dom positions ∪ list_to_set (map serverKey ss).
Proof.
  induction ss as [|s rest IH]; intros index positions; cbn [forEach map].
  - cbn [list_to_set]. now rewrite (right_id_L ∅ (∪)).
  - rewrite IH. unfold placeServer. rewrite dom_insert_L.
    cbn [list_to_set].
    now rewrite (comm_L (∪) {[serverKey s]} (dom positions)),
      <- (assoc_L (∪)).
Qed.

Lemma forEach_place_server (dimensions : Dimensions) (n : nat)
    (ss : list Entity.Server) :
  forall (index : nat) (positions : gmap string Node) (k : string),
  k ∈ map serverKey ss ->
  exists node,
    forEach (placeServer dimensions n) ss index positions !! k = Some node
    /\ type node = server.
Proof.
  induction ss as [|s rest IH]; intros index positions k Hk;
    [now apply elem_of_nil in Hk|].
  cbn [forEach]. destruct (decide (k ∈ map serverKey rest)) as [Hin | Hout].
  - now apply IH.
  - cbn [map] in Hk. apply elem_of_cons in Hk as [-> | Hk]; [|contradiction].
    rewrite forEach_place_other by assumption.
    unfold placeServer. rewrite lookup_insert_eq. eauto.
Qed.

(** X18. When no server is named [__proto__], the layout has a node
    under ["lb"] and under the name of every server, and no other node, and
    with pairwise distinct names other than ["lb"] there is one node more
    than there are servers; the node under the name of a server not named
    [__proto__] is a server node. *)
Theorem layout_nodes (dimensions : Dimensions) (ss : list Entity.Server) :
  ("__proto__"%string ∉ map serverKey ss ->
   dom (calculatePositions dimensions ss)
   = {[ "lb"%string ]} ∪ list_to_set (map serverKey ss))
  /\ (forall s,
        s ∈ ss -> serverKey s <> "__proto__"%string ->
        exists node,
          calculatePositions dimensions ss !! serverKey s = Some node
          /\ type node = server)
  /\ (NoDup (map serverKey ss) -> "lb"%string ∉ map serverKey ss ->
      "__proto__"%string ∉ map serverKey ss ->
      size (calculatePositions dimensions ss) = S (length ss)).
Proof.
  assert (Hdom : dom (calculatePositions dimensions ss)
                 = {[ "lb"%string ]} ∪ list_to_set (map serverKey ss)).
  { unfold calculatePositions. rewrite forEach_place_dom.
    now rewrite dom_singleton_L. }
  split; [intros _; exact Hdom|]. split.
  - intros s Hs _. unfold calculatePositions. apply forEach_place_server.
    apply list_elem_of_fmap. eauto.
  - intros Hdup Hlb _. rewrite <- size_dom, Hdom.
    rewrite size_union.
    2:{ apply elem_of_disjoint. intros k Hk Hkeys.
        apply elem_of_singleton in Hk as ->.
        now apply elem_of_list_to_set in Hkeys. }
    rewrite size_singleton, size_list_to_set by assumption.
    now rewrite length_map.
Qed.

(** Two servers with ordinary names, through the theorem: three nodes. *)
Lemma layout_nodes_witness :
  let named (nm : string) :=
    Entity.mkServer (Some nm) None None None None None None None None None
      None in
  size (calculatePositions (mkDimensions 300 300) [named "s1"; named "s2"])
  = 3%nat.
Proof.
  intros named.
  apply (proj2 (proj2 (layout_nodes (mkDimensions 300 300)
                         [named "s1"%string; named "s2"%string]))).
  - apply NoDup_cons. split.
    + intros Hin. apply list_elem_of_singleton in Hin. discriminate Hin.
    + apply NoDup_singleton.
  - intros Hin.
    repeat (apply elem_of_cons in Hin as [Hin | Hin]; [discriminate Hin|]).
    now apply elem_of_nil in Hin.
  - intros Hin.
    repeat (apply elem_of_cons in Hin as [Hin | Hin]; [discriminate Hin|]).
    now apply elem_of_nil in Hin.
Defined.

(** ** Traffic events on the topology *)

Lemma exec_targets (a : Action) (w w' : World) :
  targetsKnown w -> exec a w = Some w' -> isSetup a = false ->
  targetsKnown w' /\ servers w' = servers w.
Proof.
  intros Hknown Hexec Hkeep.
  destruct a as [random | id0 | | | servers']; cbn in Hexec;
    [| | | |discriminate].
  - destruct (interval w) as [d|]; [|discriminate].
    destruct (d =? now w); [|discriminate].
    destruct (onInterval_cases random w) as [Hsame | (s & Hs & Hnew)];
      [rewrite Hsame in Hexec | rewrite Hnew in Hexec];
      injection Hexec as <-; (split; [|reflexivity]); [exact Hknown|].
    intros e He. cbn in He |- *. apply elem_of_app in He as [He | He].
    + now apply Hknown.
    + apply list_elem_of_singleton in He as ->. cbn. eauto.
  - destruct (existsb _ _); [|discriminate]. injection Hexec as <-.
    split; [|reflexivity]. intros e He. cbn in He |- *.
    apply onTimeout_elem in He as [He _]. now apply Hknown.
  - destruct (idle w); [|discriminate]. now injection Hexec as <-.
  - now injection Hexec as <-.
Qed.

Lemma run_targets (actions : list Action) :
  forall w w',
  targetsKnown w -> run actions w = Some w' ->
  forallb (fun a => negb (isSetup a)) actions = true ->
  targetsKnown w' /\ servers w' = servers w.
Proof.
  induction actions as [|a rest IH]; intros w w' Hknown Hrun Hkeep;
    cbn in Hrun, Hkeep.
  - now injection Hrun as <-.
  - destruct (exec a w) as [w1|] eqn:Hexec; [|discriminate].
    apply andb_true_iff in Hkeep as [Ha Hrest].
    apply negb_true_iff in Ha.
    destruct (exec_targets a w w1 Hknown Hexec Ha) as [Hknown1 Hservers1].
    destruct (IH w1 w' Hknown1 Hrun Hrest) as [Hknown' Hservers'].
    split; [exact Hknown' | congruence].
Qed.

Lemma node_distance (dimensions : Dimensions) (n : nat) (s : Entity.Server)
    (index : nat) :
  (0 <= IZR (width dimensions))%R -> (0 <= IZR (height dimensions))%R ->
  sqrt ((x (serverNode dimensions n s index)
         - IZR (width dimensions) / 2) ^ 2
        + (y (serverNode dimensions n s index)
           - IZR (height dimensions) / 2) ^ 2)%R
  = (Rmin (IZR (width dimensions)) (IZR (height dimensions)) * (3 / 10))%R.
Proof.
  intros Hw Hh. cbn [serverNode x y].
  set (r := (Rmin (IZR (width dimensions)) (IZR (height dimensions))
             * (3 / 10))%R).
  set (angle := (INR index * 2 * PI / INR n)%R).
  assert (Hr : (0 <= r)%R).
  { subst r. apply Rmult_le_pos; [now apply Rmin_glb | lra]. }
  pose proof (sin2_cos2 angle) as Hunit. unfold Rsqr in Hunit.
  replace ((IZR (width dimensions) / 2 + r * cos angle
            - IZR (width dimensions) / 2) ^ 2
           + (IZR (height dimensions) / 2 + r * sin angle
              - IZR (height dimensions) / 2) ^ 2)%R
    with (r ^ 2 * (sin angle * sin angle + cos angle * cos angle))%R by ring.
  rewrite Hunit, Rmult_1_r. now apply sqrt_pow2.
Qed.

(** X19. While the effect is not run again with another server list, every
    traffic event in flight goes from the hub to a server of the list; so
    with pairwise distinct server names other than ["lb"] and a measured
    container, every event in flight is drawn, over a distance equal to
    the radius of the circle, which is also the length of every connection
    line. *)
Theorem traffic_is_drawn (dimensions : Dimensions) (t0 : Z)
    (ss : list Entity.Server) (actions : list Action) (w : World) :
  NoDup (map serverKey ss) ->
  "lb"%string ∉ map serverKey ss ->
  0 <= width dimensions ->
  0 <= height dimensions ->
  run actions (mount t0 ss) = Some w ->
  forallb (fun a => negb (isSetup a)) actions = true ->
  let positions := calculatePositions dimensions ss in
  let radius :=
    (Rmin (IZR (width dimensions)) (IZR (height dimensions)) * (3 / 10))%R in
  (forall e, e ∈ traffic w ->
             from e = "lb"%string
             /\ exists s, s ∈ ss /\ to e = Entity.name s)
  /\ (forall s, s ∈ ss ->
        exists node,
          positions !! serverKey s = Some node
          /\ connectionWidth positions node = Some radius)
  /\ (forall e, e ∈ traffic w -> trafficDistance positions e = Some radius).
Proof.
  intros Hdup Hlb Hwidth Hheight Hrun Hkeep positions radius.
  apply IZR_le in Hwidth, Hheight.
  assert (Hhub : positions !! "lb"%string
                 = Some {| x := (IZR (width dimensions) / 2)%R;
                           y := (IZR (height dimensions) / 2)%R;
                           type := lb; props := None |}).
  { subst positions. unfold calculatePositions.
    rewrite forEach_place_other by assumption. apply lookup_singleton_eq. }
  assert (Hnode : forall s, s ∈ ss ->
            exists i, positions !! serverKey s
                      = Some (serverNode dimensions (length ss) s i)).
  { intros s Hs. apply list_elem_of_lookup_1 in Hs as [i Hi]. exists i.
    subst positions. unfold calculatePositions.
    now rewrite (forEach_place_lookup _ _ _ 0%nat _ i s Hdup Hi). }
  assert (Hknown : targetsKnown w /\ servers w = ss).
  { apply (run_targets actions (mount t0 ss)); [|exact Hrun | exact Hkeep].
    intros e He. now apply elem_of_nil in He. }
  destruct Hknown as [Hknown Hservers].
  split; [|split].
  - intros e He. destruct (Hknown e He) as (Hfrom & s & Hs & Hto).
    rewrite Hservers in Hs. eauto.
  - intros s Hs. destruct (Hnode s Hs) as [i Hi]. eexists.
    split; [exact Hi|]. unfold connectionWidth. rewrite Hhub.
    cbn [x y]. f_equal. now apply node_distance.
  - intros e He. destruct (Hknown e He) as (Hfrom & s & Hs & Hto).
    rewrite Hservers in Hs. destruct (Hnode s Hs) as [i Hi].
    unfold trafficDistance. rewrite Hfrom, Hhub, Hto.
    fold (serverKey s). rewrite Hi. cbn [x y]. f_equal.
    now apply node_distance.
Qed.

Lemma traffic_is_drawn_witness :
  let named (k : string) :=
    Entity.mkServer (Some k) None None None None None None None None None
      None in
  trafficDistance
    (calculatePositions (mkDimensions 300 300)
       [named "s1"; named "s2"; named "s3"])
    {| id := 500; from := "lb"; to := Some "s2"%string |}
  = Some (Rmin 300 300 * (3 / 10))%R.
Proof.
  intros named.
  assert (Hdup : NoDup (map serverKey [named "s1"; named "s2"; named "s3"]%string)).
  { apply (bool_decide_unpack _). vm_compute. exact I. }
  assert (Hlb : "lb"%string
                ∉ map serverKey [named "s1"; named "s2"; named "s3"]%string).
  { apply (bool_decide_unpack _). vm_compute. exact I. }
  refine (proj2 (proj2
            (traffic_is_drawn (mkDimensions 300 300) 0
               [named "s1"; named "s2"; named "s3"]%string
               (repeat Wait 500 ++ [Tick (1 # 2)])
               {| now := 500;
                  servers := [named "s1"; named "s2"; named "s3"]%string;
                  traffic := [ {| id := 500; from := "lb";
                                  to := Some "s2"%string |} ];
                  timeouts := [ {| due := 2500; target := 500 |} ];
                  interval := Some 1000 |}
               Hdup Hlb _ _ _ _)) _ _).
  - cbn. lia.
  - cbn. lia.
  - vm_compute. reflexivity.
  - vm_compute. reflexivity.
  - cbn [traffic]. left.
Defined.

(** ** How many events are in flight *)

Lemma spaced_snoc (ids : list Z) (t : Z) :
  spaced ids -> (forall i, i ∈ ids -> i + 500 <= t) -> spaced (ids ++ [t]).
Proof.
  unfold spaced. induction ids as [|i rest IH]; intros Hs Hall; cbn.
  - repeat constructor.
  - apply StronglySorted_inv in Hs as [Hrest Hi]. constructor.
    + apply IH; [exact Hrest|]. intros j Hj. apply Hall. now right.
    + apply Forall_app. split; [exact Hi|].
      constructor; [apply Hall; left | constructor].
Qed.

Lemma spaced_onTimeout (id0 : Z) (prev : list TrafficEvent) :
  spaced (map id prev) -> spaced (map id (onTimeout id0 prev)).
Proof.
  unfold spaced, onTimeout.
  induction prev as [|e rest IH]; intros Hs; [exact Hs|].
  cbn [map] in Hs. apply StronglySorted_inv in Hs as [Hrest He].
  cbn [List.filter]. destruct (negb (id e =? id0)); [|now apply IH].
  cbn [map]. constructor; [now apply IH|].
  rewrite Forall_forall in He |- *. intros i Hi. apply He.
  apply list_elem_of_fmap in Hi as (e' & -> & He').
  apply list_elem_of_fmap. exists e'. split; [reflexivity|].
  now apply (onTimeout_elem id0) in He' as [He' _].
Qed.

Lemma spaced_length (ids : list Z) :
  spaced ids ->
  forall lo hi,
  (forall i, i ∈ ids -> lo <= i <= hi) ->
  ids <> [] ->
  500 * (Z.of_nat (length ids) - 1) <= hi - lo.
Proof.
  unfold spaced. induction ids as [|i rest IH]; intros Hs lo hi Hall Hne;
    [congruence|].
  apply StronglySorted_inv in Hs as [Hrest Hi].
  assert (Hi0 : lo <= i <= hi) by (apply Hall; left).
  destruct rest as [|j rest]; [cbn; lia|].
  assert (Hstep : 500 * (Z.of_nat (length (j :: rest)) - 1)
                  <= hi - (i + 500)).
  { apply IH; [exact Hrest | | discriminate].
    intros k Hk. split; [|apply Hall; now right].
    rewrite Forall_forall in Hi. now apply Hi. }
  cbn [length] in *. lia.
Qed.

Lemma exec_spaced (a : Action) (w w' : World) :
  consistent w -> spaced (map id (traffic w)) ->
  exec a w = Some w' -> spaced (map id (traffic w')).
Proof.
  intros Hw Hs Hexec. destruct a as [random | id0 | | | servers'];
    cbn in Hexec.
  - destruct (interval w) as [d|] eqn:Hint; [|discriminate].
    destruct (Z.eqb_spec d (now w)) as [Hd | _]; [|discriminate].
    destruct (onInterval_cases random w) as [Hsame | (s & _ & Hnew)];
      [rewrite Hsame in Hexec | rewrite Hnew in Hexec];
      injection Hexec as <-; cbn; [exact Hs|].
    rewrite map_app. cbn [map id]. apply spaced_snoc; [exact Hs|].
    intros i Hi. apply list_elem_of_fmap in Hi as (e & -> & He).
    pose proof (ids_past w Hw e He) as Hpast. unfold lastTick in Hpast.
    rewrite Hint in Hpast. lia.
  - destruct (existsb _ _); [|discriminate]. injection Hexec as <-. cbn.
    now apply spaced_onTimeout.
  - destruct (idle w); [|discriminate]. now injection Hexec as <-.
  - now injection Hexec as <-.
  - destruct (interval w); [discriminate|]. now injection Hexec as <-.
Qed.

Lemma run_spaced (actions : list Action) :
  forall w w',
  consistent w -> spaced (map id (traffic w)) ->
  run actions w = Some w' -> spaced (map id (traffic w')).
Proof.
  induction actions as [|a rest IH]; intros w w' Hw Hs Hrun; cbn in Hrun.
  - now injection Hrun as <-.
  - destruct (exec a w) as [w1|] eqn:Hexec; [|discriminate].
    apply (IH w1 w'); [| |exact Hrun].
    + eapply exec_consistent; eassumption.
    + eapply exec_spaced; eassumption.
Qed.

(** X20. At any moment at most 5 traffic events are in flight, each with
    exactly one pending removal timer, and the ids of the events in flight
    are at least 500 ms apart, in creation order. *)
Theorem in_flight_bound (w : World) :
  reachable w ->
  (length (traffic w) <= 5)%nat
  /\ length (timeouts w) = length (traffic w)
  /\ spaced (map id (traffic w)).
Proof.
  intros Hreach. pose proof (reachable_consistent w Hreach) as Hw.
  assert (Hs : spaced (map id (traffic w))).
  { destruct Hreach as (t0 & servers0 & actions & Hrun).
    apply (run_spaced actions (mount t0 servers0) w);
      [apply consistent_mount | constructor | exact Hrun]. }
  split; [|split; [|exact Hs]].
  - destruct (traffic w) as [|e rest] eqn:Htraffic; [cbn; lia|].
    assert (Hbound : 500 * (Z.of_nat (length (map id (e :: rest))) - 1)
                     <= now w - (now w - 2000)).
    { apply spaced_length; [exact Hs | | discriminate].
      intros i Hi. apply list_elem_of_fmap in Hi as (e' & -> & He').
      rewrite <- Htraffic in He'.
      pose proof (not_overdue w Hw e' He') as Hdue.
      pose proof (ids_past w Hw e' He') as Hpast. unfold lastTick in Hpast.
      destruct (interval w) as [d|] eqn:Hint; [|lia].
      pose proof (interval_near w Hw d Hint). lia. }
    rewrite length_map in Hbound. lia.
  - rewrite (timers_match w Hw). apply length_map.
Qed.

Lemma in_flight_bound_witness :
  let server1 :=
    Entity.mkServer (Some "s1"%string) None None None None None None None
      None None None in
  let event (t : Z) := {| id := t; from := "lb"; to := Some "s1"%string |} in
  let timer (t : Z) := {| due := t + 2000; target := t |} in
  let w :=
    {| now := 2500; servers := [server1];
       traffic := [event 500; event 1000; event 1500; event 2000; event 2500];
       timeouts := [timer 500; timer 1000; timer 1500; timer 2000; timer 2500];
       interval := Some 3000 |} in
  length (traffic w) = 5%nat /\ (length (traffic w) <= 5)%nat.
Proof.
  intros server1 event timer w. split; [reflexivity|].
  apply (in_flight_bound w).
  exists 0, [server1],
    (repeat Wait 500 ++ [Tick 0] ++ repeat Wait 500 ++ [Tick 0]
     ++ repeat Wait 500 ++ [Tick 0] ++ repeat Wait 500 ++ [Tick 0]
     ++ repeat Wait 500 ++ [Tick 0]).
  vm_compute. reflexivity.
Defined.

(** ** After the effect is cleaned up *)

Lemma exec_stopped (a : Action) (w w' : World) :
  interval w = None -> exec a w = Some w' -> isSetup a = false ->
  interval w' = None /\ (forall e, e ∈ traffic w' -> e ∈ traffic w).
Proof.
  intros Hint Hexec Hkeep.
  destruct a as [random | id0 | | | servers']; cbn in Hexec;
    [| | | |discriminate].
  - rewrite Hint in Hexec. discriminate.
  - destruct (existsb _ _); [|discriminate]. injection Hexec as <-.
    split; [exact Hint|]. intros e He. cbn in He.
    now apply onTimeout_elem in He as [He _].
  - destruct (idle w); [|discriminate]. now injection Hexec as <-.
  - now injection Hexec as <-.
Qed.

Lemma run_stopped (actions : list Action) :
  forall w w',
  interval w = None -> run actions w = Some w' ->
  forallb (fun a => negb (isSetup a)) actions = true ->
  interval w' = None /\ (forall e, e ∈ traffic w' -> e ∈ traffic w).
Proof.
  induction actions as [|a rest IH]; intros w w' Hint Hrun Hkeep;
    cbn in Hrun, Hkeep.
  - now injection Hrun as <-.
  - destruct (exec a w) as [w1|] eqn:Hexec; [|discriminate].
    apply andb_true_iff in Hkeep as [Ha Hrest].
    apply negb_true_iff in Ha.
    destruct (exec_stopped a w w1 Hint Hexec Ha) as [Hint1 Hsub1].
    destruct (IH w1 w' Hint1 Hrun Hrest) as [Hint' Hsub'].
    split; [exact Hint' | auto].
Qed.

(** X21. Once the effect is cleaned up and until it runs again, no traffic
    event is created: the active set only loses events, and 2001 ms after
    the cleanup at the latest it is empty, with no removal timer left. *)
Theorem stopped_effect_drains (w w' : World) (actions : list Action) :
  reachable w ->
  interval w = None ->
  run actions w = Some w' ->
  forallb (fun a => negb (isSetup a)) actions = true ->
  interval w' = None
  /\ (forall e, e ∈ traffic w' -> e ∈ traffic w)
  /\ (now w + 2001 <= now w' -> traffic w' = [] /\ timeouts w' = []).
Proof.
  intros Hreach Hint Hrun Hkeep.
  destruct (run_stopped actions w w' Hint Hrun Hkeep) as [Hint' Hsub].
  split; [exact Hint'|]. split; [exact Hsub|]. intros Hlate.
  pose proof (reachable_consistent w Hreach) as Hw.
  pose proof (run_consistent actions w w' Hw Hrun) as Hw'.
  assert (Hempty : traffic w' = []).
  { pose proof (not_overdue w' Hw') as Hdue.
    destruct (traffic w') as [|e rest]; [reflexivity|].
    assert (He : e ∈ e :: rest) by left.
    specialize (Hdue e He).
    pose proof (ids_past w Hw e (Hsub e He)) as Hpast.
    unfold lastTick in Hpast. rewrite Hint in Hpast. lia. }
  split; [exact Hempty|]. now rewrite (timers_match w' Hw'), Hempty.
Qed.

Lemma stopped_effect_drains_witness :
  let server1 :=
    Entity.mkServer (Some "s1"%string) None None None None None None None
      None None None in
  let stopped :=
    {| now := 500; servers := [server1];
       traffic := [ {| id := 500; from := "lb"; to := Some "s1"%string |} ];
       timeouts := [ {| due := 2500; target := 500 |} ];
       interval := None |} in
  let later :=
    {| now := 2501; servers := [server1]; traffic := []; timeouts := [];
       interval := None |} in
  run (repeat Wait 2000 ++ [Expire 500; Wait]) stopped = Some later
  /\ interval later = None.
Proof.
  intros server1 stopped later.
  assert (Hrun : run (repeat Wait 2000 ++ [Expire 500; Wait]) stopped
                 = Some later).
  { vm_compute. reflexivity. }
  split; [exact Hrun|].
  apply (stopped_effect_drains stopped later
           (repeat Wait 2000 ++ [Expire 500; Wait])).
  - exists 0, [server1], (repeat Wait 500 ++ [Tick 0; Cleanup]).
    vm_compute. reflexivity.
  - reflexivity.
  - exact Hrun.
  - vm_compute. reflexivity.
Defined.

(** ** The mocked performance figures *)

Lemma performance_mocked (r1 r2 r3 : float)
    (older : list LoadBalancerStats.AlgorithmEntry)
    (previous current : LoadBalancerStats.AlgorithmEntry) :
  let perf :=
    LoadBalancerStats.calculateAlgorithmPerformance r1 r2 r3
      (older ++ [previous; current]) in
  LoadBalancerStats.avgResponseTime perf = (50 + r1 * 50)%float
  /\ LoadBalancerStats.errorRate perf = (0.5 + r2 * 1.5)%float
  /\ LoadBalancerStats.efficiency perf = (85 + r3 * 15)%float.
Proof.
  unfold LoadBalancerStats.calculateAlgorithmPerformance.
  rewrite length_app. cbn [length].
  replace (length older + 2 <? 2)%nat with false
    by (symmetry; apply Nat.ltb_ge; lia).
  replace (length older + 2 - 1)%nat with (length older + 1)%nat by lia.
  replace (length older + 2 - 2)%nat with (length older + 0)%nat by lia.
  rewrite !lookup_app_r by lia.
  replace (length older + 1 - length older)%nat with 1%nat by lia.
  replace (length older + 0 - length older)%nat with 0%nat by lia.
  cbn [lookup list_lookup]. easy.
Qed.

(** X22. With fewer than two history entries the response time, error
    rate and efficiency of [calculateAlgorithmPerformance] are 0 and the
    label under the response time says ["Good"].  With two or more they are
    [50 + r1 * 50], [0.5 + r2 * 1.5] and [85 + r3 * 15] of the three draws,
    whatever the history holds.  The label is not always ["Good"]: for the
    largest draw below 1, which is [1 - 2^-53], the response time is
    exactly 100 and the label says ["Slow"], and the efficiency is exactly
    100. *)
Theorem mocked_performance :
  (forall r1 r2 r3 history,
      (length history < 2)%nat ->
      let perf :=
        LoadBalancerStats.calculateAlgorithmPerformance r1 r2 r3 history in
      LoadBalancerStats.avgResponseTime perf = 0%float
      /\ LoadBalancerStats.errorRate perf = 0%float
      /\ LoadBalancerStats.efficiency perf = 0%float
      /\ LoadBalancerStats.responseLabel perf = "Good"%string)
  /\ (forall r1 r2 r3 history,
        (2 <= length history)%nat ->
        let perf :=
          LoadBalancerStats.calculateAlgorithmPerformance r1 r2 r3 history in
        LoadBalancerStats.avgResponseTime perf = (50 + r1 * 50)%float
        /\ LoadBalancerStats.errorRate perf = (0.5 + r2 * 1.5)%float
        /\ LoadBalancerStats.efficiency perf = (85 + r3 * 15)%float)
  /\ (forall history,
        (2 <= length history)%nat ->
        let largest := 0x1.fffffffffffffp-1%float in
        let perf :=
          LoadBalancerStats.calculateAlgorithmPerformance largest largest
            largest history in
        (largest <? 1)%float = true
        /\ LoadBalancerStats.avgResponseTime perf = 100%float
        /\ LoadBalancerStats.efficiency perf = 100%float
        /\ LoadBalancerStats.responseLabel perf = "Slow"%string)
  /\ (forall history,
        (2 <= length history)%nat ->
        LoadBalancerStats.responseLabel
          (LoadBalancerStats.calculateAlgorithmPerformance 0.5 0.5 0.5 history)
        = "Good"%string).
Proof.
  split; [|split; [|split]].
  - intros r1 r2 r3 history Hlen perf. subst perf.
    unfold LoadBalancerStats.calculateAlgorithmPerformance.
    apply Nat.ltb_lt in Hlen as ->. repeat split.
  - intros r1 r2 r3 history Hlen perf. subst perf.
    destruct (two_latest history Hlen) as (older & previous & current & ->).
    apply performance_mocked.
  - intros history Hlen largest perf. subst perf.
    destruct (two_latest history Hlen) as (older & previous & current & ->).
    unfold LoadBalancerStats.responseLabel.
    destruct (performance_mocked largest largest largest older previous
                current) as (-> & _ & ->).
    repeat split.
  - intros history Hlen.
    destruct (two_latest history Hlen) as (older & previous & current & ->).
    unfold LoadBalancerStats.responseLabel.
    destruct (performance_mocked 0.5 0.5 0.5 older previous current)
      as (-> & _ & _).
    reflexivity.
Qed.

Lemma mocked_performance_witness :
  LoadBalancerStats.responseLabel
    (LoadBalancerStats.calculateAlgorithmPerformance
       0x1.fffffffffffffp-1 0x1.fffffffffffffp-1 0x1.fffffffffffffp-1
       [LoadBalancerStats.mkEntry "round_robin" 0 3 100;
        LoadBalancerStats.mkEntry "ip_hash" 2000 3 300])
  = "Slow"%string.
Proof.
  apply (proj1 (proj2 (proj2 mocked_performance))
           [LoadBalancerStats.mkEntry "round_robin" 0 3 100;
            LoadBalancerStats.mkEntry "ip_hash" 2000 3 300]).
  simpl. lia.
Defined.

(** ** The bars and the status of a server card *)

Lemma gt_or_zero (v : option Q) (limit : Q) :
  (0 <= limit)%Q -> Js.gt (Some (Js.or_zero v)) limit = Js.gt v limit.
Proof.
  intros Hlimit. destruct v as [q|]; [reflexivity|]. cbn.
  apply negb_false_iff. now apply Qle_bool_iff.
Qed.

(** X23. The bars of a server card agree with its status: for a server
    that does not report [healthy: false], the status is ["warning"]
    exactly when the CPU bar or the memory bar is amber, and a healthy
    server has two green bars.  A bar is never wider than 100 percent and
    shows a value up to 100 as it is. *)
Theorem bars_match_status :
  (forall s,
      Entity.healthy s <> Some false ->
      getServerStatus s = Warning
      <-> cpuBarColor s = "#fbbf24"%string
          \/ memoryBarColor s = "#fbbf24"%string)
  /\ (forall s,
        getServerStatus s = Healthy ->
        cpuBarColor s = "#4ade80"%string
        /\ memoryBarColor s = "#4ade80"%string)
  /\ (forall v, (barWidth v <= 100)%Q)
  /\ (forall v, (Js.or_zero v <= 100)%Q -> (barWidth v == Js.or_zero v)%Q).
Proof.
  split; [|split; [|split]].
  - intros s Hs. unfold getServerStatus, cpuBarColor, memoryBarColor.
    rewrite bool_decide_eq_false_2 by assumption.
    rewrite !gt_or_zero by discriminate.
    destruct (Js.gt (Entity.cpu_usage s) 80),
      (Js.gt (Entity.memory_usage s) 85); cbn; split; intros Hamber;
      try reflexivity; try discriminate; auto.
    destruct Hamber; discriminate.
  - intros s. unfold getServerStatus, cpuBarColor, memoryBarColor.
    rewrite !gt_or_zero by discriminate.
    destruct (bool_decide _); [discriminate|].
    destruct (Js.gt (Entity.cpu_usage s) 80),
      (Js.gt (Entity.memory_usage s) 85); cbn; intros Hstatus;
      try discriminate; now split.
  - intros v. apply Q.le_min_r.
  - intros v Hv. now apply Q.min_l.
Qed.

(** ** The CPU history chart *)

(** X24. The CPU history chart draws nothing for the first sample and one
    mark for every later one, so a history of a single sample yields no
    mark and no division by zero.  Every mark is at most 100 percent high,
    its position is above 0 and at most 100 percent, and the mark of the
    latest sample is at exactly 100 percent. *)
Theorem cpuChart_marks (history : list Sample) :
  length (cpuChart history) = length history
  /\ (forall entry, history !! 0%nat = Some entry ->
                    cpuChart history !! 0%nat = Some None)
  /\ (forall index entry,
        history !! S index = Some entry ->
        exists mark,
          cpuChart history !! S index = Some (Some mark)
          /\ (mark_height mark <= 100)%Q
          /\ (0 < mark_left mark <= 100)%Q
          /\ (S (S index) = length history -> (mark_left mark == 100)%Q)).
Proof.
  unfold cpuChart. split; [apply length_imap|]. split.
  - intros entry Hentry. rewrite list_lookup_imap, Hentry. reflexivity.
  - intros index entry Hentry. rewrite list_lookup_imap, Hentry.
    cbn [fmap option_fmap option_map].
    assert (Hlen : (S index < length history)%nat)
      by (eapply lookup_lt_Some; eauto).
    destruct (lookup_lt_is_Some_2 history index ltac:(lia)) as [prev Hprev].
    rewrite Hprev. eexists. split; [reflexivity|].
    cbn [mark_height mark_left].
    assert (Hn : (0 < inject_Z (Z.of_nat (length history) - 1))%Q).
    { rewrite <- (Zlt_Qlt 0). lia. }
    assert (Hi : (0 < inject_Z (Z.of_nat (S index)))%Q).
    { rewrite <- (Zlt_Qlt 0). lia. }
    assert (Hle : (inject_Z (Z.of_nat (S index))
                   <= inject_Z (Z.of_nat (length history) - 1))%Q).
    { rewrite <- Zle_Qle. lia. }
    assert (Hlo : (0 < inject_Z (Z.of_nat (S index))
                       / inject_Z (Z.of_nat (length history) - 1))%Q).
    { apply Qlt_shift_div_l; [exact Hn|]. now rewrite Qmult_0_l. }
    assert (Hhi : (inject_Z (Z.of_nat (S index))
                   / inject_Z (Z.of_nat (length history) - 1) <= 1)%Q).
    { apply Qle_shift_div_r; [exact Hn|]. now rewrite Qmult_1_l. }
    split; [apply Q.le_min_r|]. split.
    + set (q := (inject_Z (Z.of_nat (S index))
                 / inject_Z (Z.of_nat (length history) - 1))%Q) in *.
      split; Lqa.lra.
    + intros Hlast.
      replace (Z.of_nat (length history) - 1) with (Z.of_nat (S index))
        by lia.
      field. intros E. rewrite E in Hi. discriminate.
Qed.

(** ** The healthy-server card *)

(** X25. The line under the healthy-server count says that all servers are
    healthy when the two counts are equal and also when the stats carry
    neither count; when only one count is present it reports [NaN] servers
    down, and when both are present and differ it reports their
    difference, which is then not 0. *)
Theorem serverTrend_cases (stats : App.Stats) :
  (App.healthy_servers stats = None -> App.total_servers stats = None ->
   Overview.serverTrend stats = Overview.AllHealthy)
  /\ (forall up total,
        App.healthy_servers stats = Some up ->
        App.total_servers stats = Some total ->
        (up == total)%Q ->
        Overview.serverTrend stats = Overview.AllHealthy)
  /\ (forall up total,
        App.healthy_servers stats = Some up ->
        App.total_servers stats = Some total ->
        ~ (up == total)%Q ->
        Overview.serverTrend stats = Overview.Down (Js.Num (total - up))
        /\ ~ (total - up == 0)%Q)
  /\ (is_Some (App.healthy_servers stats)
      <-> ~ is_Some (App.total_servers stats) ->
      Overview.serverTrend stats = Overview.Down Js.NaN).
Proof.
  unfold Overview.serverTrend. split; [|split; [|split]].
  - now intros -> ->.
  - intros up total -> -> Heq. cbn. now apply Qeq_bool_iff in Heq as ->.
  - intros up total -> -> Hne. cbn.
    replace (Qeq_bool up total) with false.
    + split; [reflexivity|]. intros Hzero. apply Hne. Lqa.lra.
    + symmetry. apply not_true_iff_false. intros Heq.
      now apply Qeq_bool_iff in Heq.
  - intros Hone.
    destruct (App.healthy_servers stats) as [up|],
      (App.total_servers stats) as [total|]; cbn; try reflexivity.
    + exfalso. apply Hone; eauto.
    + exfalso. destruct Hone as [_ Hone].
      destruct Hone as [x Hx]; [|discriminate].
      intros [y Hy]. discriminate.
Qed.
